(** * airfoildb: curvature-based B-spline resampling, batch export and scraping

    A shallow embedding of [airfoildb/bspline.py], [airfoildb/io.py],
    [airfoildb/cli.py] ([uniformize]), [airfoildb/webscrap.py] and of the
    stand-alone script [bin/bspline.py].

    Numeric arrays ([numpy.ndarray] of floats) are lists of real numbers and
    the arithmetic on them is exact: rounding, [inf] and [nan] are outside the
    model.  Python exceptions are an explicit error value.  The [numpy] and
    [scipy] routines the pipeline calls are written out from their documented
    behaviour; the spline fitter and evaluator of FITPACK are an interface
    ([SplineLibrary]), and so is the operating system ([OS]). *)

From Stdlib Require Import String Ascii.
From Stdlib Require Import Reals Lra Lia List ZArith Bool Arith.
From Stdlib Require Import QArith Qreals Sorted Permutation.
Import ListNotations.

Open Scope string_scope.
Open Scope list_scope.
Open Scope R_scope.

(** ** Exceptions *)

Inductive exn : Type :=
| ValueError
| TypeError
| OSError
| HTTPError
| UnicodeDecodeError.

Inductive exc (A : Type) : Type :=
| Ok (a : A)
| Raise (e : exn).

Arguments Ok {A} a.
Arguments Raise {A} e.

Definition exc_bind {A B : Type} (m : exc A) (f : A -> exc B) : exc B :=
  match m with
  | Ok a => f a
  | Raise e => Raise e
  end.

Declare Scope exc_scope.
Delimit Scope exc_scope with exc.
Notation "x <- m ;; k" := (exc_bind m (fun x => k))
  (at level 61, m at next level, right associativity) : exc_scope.
Notation "' p <- m ;; k" := (exc_bind m (fun x => let p := x in k))
  (at level 61, p pattern, m at next level, right associativity) : exc_scope.

Definition exn_eqb (a b : exn) : bool :=
  match a, b with
  | ValueError, ValueError => true
  | TypeError, TypeError => true
  | OSError, OSError => true
  | HTTPError, HTTPError => true
  | UnicodeDecodeError, UnicodeDecodeError => true
  | _, _ => false
  end.

(** ** Arrays *)

(** A one-dimensional float array. *)
Definition array1 : Type := list R.

(** A two-dimensional float array, as the list of its rows. *)
Definition ndarray : Type := list (list R).

Definition Rltb (a b : R) : bool := if Rlt_dec a b then true else false.

(** [a.T] of a rectangular two-dimensional array. *)
Definition transpose (a : ndarray) : ndarray :=
  match a with
  | [] => []
  | r :: _ => map (fun j => map (fun row => nth j row 0) a) (seq 0 (length r))
  end.

(** Elementwise binary operation on two arrays of one shape. *)
Fixpoint map2 {A B C : Type} (f : A -> B -> C) (a : list A) (b : list B) : list C :=
  match a, b with
  | x :: a', y :: b' => f x y :: map2 f a' b'
  | _, _ => []
  end.

(** ** numpy *)

(** [y[-1] = v]. *)
Definition set_last (y : array1) (v : R) : array1 :=
  match y with
  | [] => []
  | _ => removelast y ++ [v]
  end.

(** [numpy.linspace(start, stop, num)] with [endpoint=True]:
    [ValueError] on a negative [num]; otherwise [arange(0, num) * step + start]
    with [step = (stop - start) / (num - 1)], and the last sample overwritten
    with [stop] when [num > 1]. *)
Definition linspace (start stop : R) (num : Z) : exc array1 :=
  if (num <? 0)%Z then Raise ValueError
  else
    let n := Z.to_nat num in
    let div := (n - 1)%nat in
    let delta := stop - start in
    let y :=
      if (0 <? div)%nat
      then map (fun i => INR i * (delta / INR div) + start) (seq 0 n)
      else map (fun i => INR i * delta + start) (seq 0 n) in
    Ok (if (1 <? n)%nat then set_last y stop else y).

(** [a.min()] and [a.max()]: [ValueError] on an empty array. *)
Definition np_min (a : array1) : exc R :=
  match a with
  | [] => Raise ValueError
  | x :: r => Ok (fold_left Rmin r x)
  end.

Definition np_max (a : array1) : exc R :=
  match a with
  | [] => Raise ValueError
  | x :: r => Ok (fold_left Rmax r x)
  end.

(** [numpy.diff(x)]. *)
Fixpoint diff (x : array1) : array1 :=
  match x with
  | a :: (b :: _) as r => (b - a) :: diff r
  | _ => []
  end.

(** [numpy.cumsum(a)]. *)
Fixpoint cumsum_from (acc : R) (a : array1) : array1 :=
  match a with
  | [] => []
  | x :: r => (acc + x) :: cumsum_from (acc + x) r
  end.

Definition cumsum (a : array1) : array1 :=
  match a with
  | [] => []
  | x :: r => x :: cumsum_from x r
  end.

(** ** scipy.integrate *)

(** [scipy.integrate.cumtrapz(y, x, initial=0.0)]:
    [cumsum(diff(x) * (y[1:] + y[:-1]) / 2.0)] with [initial] put in front;
    [ValueError] unless [x] has the length of [y]. *)
Definition trapezoids (y x : array1) : array1 :=
  map2 (fun d s => d * s / 2) (diff x) (map2 Rplus (tl y) (removelast y)).

Definition cumtrapz (y x : array1) : exc array1 :=
  if negb (length x =? length y)%nat || (length y =? 0)%nat then Raise ValueError
  else Ok (0 :: cumsum (trapezoids y x)).

(** ** scipy.interpolate.interp1d *)

(** Stable sort of the [(x, y)] pairs by [x] ([numpy.argsort] with
    [kind="mergesort"], which [interp1d] runs since [assume_sorted=False]). *)
Fixpoint insert_by_key (p : R * R) (l : list (R * R)) : list (R * R) :=
  match l with
  | [] => [p]
  | q :: r => if Rlt_dec (fst q) (fst p) then q :: insert_by_key p r else p :: l
  end.

Fixpoint sort_by_key (l : list (R * R)) : list (R * R) :=
  match l with
  | [] => []
  | p :: r => insert_by_key p (sort_by_key r)
  end.

(** [numpy.searchsorted(x, v)] ([side="left"]) on a sorted array: the number
    of entries strictly below [v]. *)
Fixpoint searchsorted (x : array1) (v : R) : nat :=
  match x with
  | [] => 0%nat
  | a :: r => if Rlt_dec a v then S (searchsorted r v) else 0%nat
  end.

(** [i.clip(lo, hi)], that is [minimum(maximum(i, lo), hi)]. *)
Definition clip (i lo hi : nat) : nat := Nat.min (Nat.max i lo) hi.

(** [interp1d._call_linear] at one abscissa: the evaluation [interp1d] uses
    for data [numpy.interp] does not take.  It is kept for the facts on
    piecewise-linear interpolation; on a strictly increasing [x] it agrees
    with [np_interp] below. *)
Definition call_linear (x y : array1) (x_new : R) : R :=
  let i := clip (searchsorted x x_new) 1 (length x - 1) in
  let lo := (i - 1)%nat in
  let hi := i in
  let x_lo := nth lo x 0 in
  let x_hi := nth hi x 0 in
  let y_lo := nth lo y 0 in
  let y_hi := nth hi y 0 in
  let slope := (y_hi - y_lo) / (x_hi - x_lo) in
  slope * (x_new - x_lo) + y_lo.

(** The number of leading entries of [arr] that are at most [key]; on a
    sorted array, the number of all such entries. *)
Fixpoint count_le (arr : array1) (key : R) : nat :=
  match arr with
  | [] => 0%nat
  | a :: r => if Rle_dec a key then S (count_le r key) else 0%nat
  end.

(** [binary_search_with_guess(key, arr, len)] of numpy on a sorted array:
    [len] when [key] is above the last entry, [-1] when it is below the
    first, and otherwise the largest [j] with [arr[j] <= key]. *)
Definition binary_search_with_guess (key : R) (arr : array1) : Z :=
  if Rltb (last arr 0) key then Z.of_nat (length arr)
  else if Rltb key (hd 0 arr) then (-1)%Z
  else (Z.of_nat (count_le arr key) - 1)%Z.

(** [numpy.interp(x, xp, fp)] at one abscissa, with the defaults
    [left = fp[0]] and [right = fp[-1]]. *)
Definition np_interp (xp fp : array1) (x_val : R) : R :=
  let j := binary_search_with_guess x_val xp in
  if (j =? -1)%Z then hd 0 fp
  else if (j =? Z.of_nat (length xp))%Z then last fp 0
  else if (j =? Z.of_nat (length xp) - 1)%Z then nth (Z.to_nat j) fp 0
  else if Req_dec_T (nth (Z.to_nat j) xp 0) x_val then nth (Z.to_nat j) fp 0
  else
    let slope := (nth (Z.to_nat j + 1) fp 0 - nth (Z.to_nat j) fp 0)
                 / (nth (Z.to_nat j + 1) xp 0 - nth (Z.to_nat j) xp 0) in
    slope * (x_val - nth (Z.to_nat j) xp 0) + nth (Z.to_nat j) fp 0.

(** [scipy.interpolate.interp1d(x, y)(x_new)] with the defaults
    [kind="linear"], [bounds_error=True], [assume_sorted=False]: the pairs
    are sorted by [x], the values come from [numpy.interp] (the path taken
    for one-dimensional float data, [_call_linear_np]), and an abscissa
    outside the range of [x] raises [ValueError]. *)
Definition interp1d (x y x_new : array1) : exc array1 :=
  if negb (length x =? length y)%nat || (length x =? 0)%nat then Raise ValueError
  else
    let sorted := sort_by_key (combine x y) in
    let xs := map fst sorted in
    let ys := map snd sorted in
    let below_bounds := existsb (fun v => Rltb v (hd 0 xs)) x_new in
    let above_bounds := existsb (fun v => Rltb (last xs 0) v) x_new in
    if below_bounds || above_bounds then Raise ValueError
    else Ok (map (np_interp xs ys) x_new).

(** ** scipy.interpolate.splprep / splev *)

(** The FITPACK spline routines.  [splprep(original, k=k, s=s)] fits a
    parametric smoothing spline of degree [k] and returns it ([tck]) with the
    parameter value of every sample, or raises [ValueError].  [splev_at] is the
    value of the [der]-th derivative of the fitted curve at one parameter. *)
Class SplineLibrary : Type := {
  tck : Type;
  splprep : ndarray -> Z -> R -> exc (tck * array1);
  degree : tck -> Z;
  splev_at : tck -> Z -> R -> R * R
}.

Section Bspline.

Context {fitpack : SplineLibrary}.

(** [scipy.interpolate.splev(x, tck, der=der)] on a parametric spline: the
    list [[xs, ys]] of the two coordinate arrays; [ValueError] unless
    [0 <= der <= k], and [ValueError] ("Invalid input data") from FITPACK on
    an empty [x]. *)
Definition splev (x : array1) (t : tck) (der : Z) : exc (array1 * array1) :=
  if ((0 <=? der)%Z && (der <=? degree t)%Z)%bool
  then
    match x with
    | [] => Raise ValueError
    | _ => Ok (map (fun u => fst (splev_at t der u)) x,
               map (fun u => snd (splev_at t der u)) x)
    end
  else Raise ValueError.

(** [b ** 1.5] for a float [b >= 0]. *)
Definition pow_1_5 (b : R) : R :=
  if Rle_dec b 0 then 0 else Rpower b (3 / 2).

(** One entry of
    [np.abs(ddx * dy - dx * ddy) / (dx * dx + dy * dy) ** 1.5 + smoother].
    Nothing tests the divisor.  Where it is 0, numpy's quotient is [nan] and
    no real number: what is proved about the value of an entry is proved where
    [curv_divisor] is not 0. *)
Definition curv_at (dx dy ddx ddy smoother : R) : R :=
  Rabs (ddx * dy - dx * ddy) / pow_1_5 (dx * dx + dy * dy) + smoother.

(** The divisor of that entry. *)
Definition curv_divisor (dx dy : R) : R := pow_1_5 (dx * dx + dy * dy).

(** The whole array [curv], elementwise over the four derivative arrays. *)
Fixpoint curv_array (dx dy ddx ddy : array1) (smoother : R) : array1 :=
  match dx, dy, ddx, ddy with
  | a :: dx', b :: dy', c :: ddx', d :: ddy' =>
      curv_at a b c d smoother :: curv_array dx' dy' ddx' ddy' smoother
  | _, _, _, _ => []
  end.

(** Lines 53-55: the curvature of the spline over the grid [uu]. *)
Definition curvature_sample (t : tck) (uu : array1) (smoother : R)
    : exc array1 :=
  ('(dx, dy) <- splev uu t 1 ;;
   '(ddx, ddy) <- splev uu t 2 ;;
   Ok (curv_array dx dy ddx ddy smoother))%exc.

(** The curvature formula as the specification words it:
    [|x'.y'' - x''.y'| / (x'^2 + y'^2)^1.5 + smoother], with the real power
    function of the library for the exponent 1.5. *)
Definition curvature_formula (x' y' x'' y'' smoother : R) : R :=
  Rabs (x' * y'' - x'' * y') / Rpower (x' ^ 2 + y' ^ 2) (3 / 2) + smoother.

(** Lines 61-64: sample the cumulative integral with [npoints] values and map
    them back to parameters. *)
Definition resample (curv_int uu : array1) (npoints : Z) : exc array1 :=
  (m <- np_max curv_int ;;
   curv_int_sample <- linspace 0 m npoints ;;
   interp1d curv_int uu curv_int_sample)%exc.

(** Line 50: [np.linspace(u.min(), u.max(), 1000)]. *)
Definition fine_discrete_space (u : array1) : exc array1 :=
  (u_min <- np_min u ;;
   u_max <- np_max u ;;
   linspace u_min u_max 1000)%exc.

(** [curvature_based_bspline(original, npoints, k, s, smoother)]. *)
Definition curvature_based_bspline
    (original : ndarray) (npoints : Z) (k : Z) (s : R) (smoother : R)
    : exc ndarray :=
  ('(t, u) <- splprep original k s ;;
   uu <- fine_discrete_space u ;;
   curv <- curvature_sample t uu smoother ;;
   curv_int <- cumtrapz curv uu ;;
   u_new <- resample curv_int uu npoints ;;
   '(x, y) <- splev u_new t 0 ;;
   Ok (transpose [x; y]))%exc.

End Bspline.

(** The default arguments of [curvature_based_bspline] (both copies). *)
Definition default_npoints : Z := 200.
Definition default_k : Z := 3.
Definition default_s : R := 1 / 1000000.
Definition default_smoother : R := 10.

(** ** The operating system, the file system and the network *)

Definition bytes : Type := string.

(** Decoded text: the list of its Unicode code points. *)
Definition text : Type := list N.

Record response : Type := {
  status_code : Z;
  content : bytes
}.

(** What the programs ask of their environment.  [World] is everything
    outside the process (files, directories, the remote server). *)
Class OS : Type := {
  World : Type;
  is_file : World -> string -> bool;
  is_dir : World -> string -> bool;
  path_exists : World -> string -> bool;
  mkdir : World -> string -> exc World;
  makedirs : World -> string -> exc World;
  glob : World -> string -> list string;
  listdir : World -> string -> exc (list string);
  genfromtxt : World -> string -> exc ndarray;
  savetxt : World -> string -> ndarray -> string -> exc World;
  requests_get : World -> string -> exc response * World;
  decode : bytes -> exc text
}.

Section Effects.

Context {os : OS}.

(** The state a program run threads: the world and what was printed. *)
Record State : Type := {
  world : World;
  stdout : list string
}.

(** A computation that may change the state and may raise. *)
Definition M (A : Type) : Type := State -> exc A * State.

Definition ret {A : Type} (a : A) : M A := fun st => (Ok a, st).

Definition raise {A : Type} (e : exn) : M A := fun st => (Raise e, st).

Definition bind {A B : Type} (m : M A) (f : A -> M B) : M B :=
  fun st =>
    match m st with
    | (Ok a, st') => f a st'
    | (Raise e, st') => (Raise e, st')
    end.

(** A pure call that may raise. *)
Definition lift {A : Type} (r : exc A) : M A := fun st => (r, st).

(** A call that reads the world. *)
Definition ask {A : Type} (f : World -> exc A) : M A :=
  fun st => (f (world st), st).

(** A call that changes the world. *)
Definition modify (f : World -> exc World) : M unit :=
  fun st =>
    match f (world st) with
    | Ok w' => (Ok tt, {| world := w'; stdout := stdout st |})
    | Raise e => (Raise e, st)
    end.

Definition print (line : string) : M unit :=
  fun st => (Ok tt, {| world := world st; stdout := stdout st ++ [line] |}).

(** [isinstance(e, ValueError)]: [UnicodeDecodeError] is a subclass of
    [ValueError]; the other exceptions are not. *)
Definition is_ValueError (e : exn) : bool :=
  match e with
  | ValueError | UnicodeDecodeError => true
  | TypeError | OSError | HTTPError => false
  end.

(** [try: body  except ValueError: pass]. *)
Definition try_except_ValueError (body : M unit) : M unit :=
  fun st =>
    match body st with
    | (Raise e, st') => if is_ValueError e then (Ok tt, st') else (Raise e, st')
    | r => r
    end.

(** [for x in xs: body(x)]. *)
Fixpoint for_each {A : Type} (xs : list A) (body : A -> M unit) : M unit :=
  match xs with
  | [] => ret tt
  | x :: rest => bind (body x) (fun _ => for_each rest body)
  end.

(** What running a loop over [xs] means: the body is run on every item in
    turn, each on the state the previous one left, until the items are
    exhausted or the body raises. *)
Inductive runs_in_order {A : Type} (body : A -> M unit)
    : list A -> State -> exc unit * State -> Prop :=
| runs_done (st : State) : runs_in_order body [] st (Ok tt, st)
| runs_next (x : A) (xs : list A) (st st1 : State) (r : exc unit * State) :
    body x st = (Ok tt, st1) -> runs_in_order body xs st1 r ->
    runs_in_order body (x :: xs) st r
| runs_stop (x : A) (xs : list A) (st st1 : State) (e : exn) :
    body x st = (Raise e, st1) ->
    runs_in_order body (x :: xs) st (Raise e, st1).

End Effects.

Declare Scope io_scope.
Delimit Scope io_scope with io.
Notation "x <- m ;; k" := (bind m (fun x => k))
  (at level 61, m at next level, right associativity) : io_scope.
Notation "m ;; k" := (bind m (fun _ => k))
  (at level 61, right associativity) : io_scope.

(** ** Python strings and paths *)

(** The code points of a literal. *)
Definition str (s : string) : text :=
  map N_of_ascii (list_ascii_of_string s).

(** [s.endswith(suffix)]. *)
Definition endswith (s suffix : string) : bool :=
  let n := String.length s in
  let m := String.length suffix in
  ((m <=? n)%nat && String.eqb (substring (n - m) m s) suffix)%bool.

Fixpoint has_slash (s : string) : bool :=
  match s with
  | EmptyString => false
  | String c r => (Ascii.eqb c "/" || has_slash r)%bool
  end.

(** [s.split("/")[-1]]. *)
Fixpoint last_component (s : string) : string :=
  match s with
  | EmptyString => EmptyString
  | String c r =>
      if (Ascii.eqb c "/" || has_slash r)%bool then last_component r else s
  end.

(** [os.path.join(a, b)], and [a / b] of [pathlib] on paths that are
    written in normal form (no [.] component, no empty name): [pathlib]
    would otherwise rewrite the result, [Path(".") / "a"] being [a]. *)
Definition path_join (a b : string) : string :=
  if prefix "/" b then b
  else if (String.eqb a EmptyString || endswith a "/")%bool then (a ++ b)%string
  else (a ++ "/" ++ b)%string.

(** [sorted(names)]: strings in code-point order. *)
Fixpoint insert_sorted (s : string) (l : list string) : list string :=
  match l with
  | [] => [s]
  | t :: r => if String.ltb t s then t :: insert_sorted s r else s :: l
  end.

Fixpoint sorted (l : list string) : list string :=
  match l with
  | [] => []
  | s :: r => insert_sorted s (sorted r)
  end.

(** ** airfoildb/webscrap.py *)

(** [\s] of a [str] pattern: the code points Python calls whitespace. *)
Definition is_space (c : N) : bool :=
  ((9 <=? c) && (c <=? 13) || (28 <=? c) && (c <=? 32)
   || (c =? 133) || (c =? 160) || (c =? 5760)
   || (8192 <=? c) && (c <=? 8202)
   || (c =? 8232) || (c =? 8233) || (c =? 8239) || (c =? 8287)
   || (c =? 12288))%N%bool.

(** [[0-9]]. *)
Definition is_digit (c : N) : bool := ((48 <=? c) && (c <=? 57))%N%bool.

(** [[0-9\.]]. *)
Definition is_digit_dot (c : N) : bool := (is_digit c || (c =? 46)%N)%bool.

(** [[0-9\.\-]]. *)
Definition is_digit_dot_minus (c : N) : bool :=
  (is_digit c || (c =? 46)%N || (c =? 45)%N)%bool.

Fixpoint take_while (p : N -> bool) (l : text) : text :=
  match l with
  | [] => []
  | c :: r => if p c then c :: take_while p r else []
  end.

Fixpoint drop_while (p : N -> bool) (l : text) : text :=
  match l with
  | [] => []
  | c :: r => if p c then drop_while p r else l
  end.

Definition is_empty (l : text) : bool :=
  match l with [] => true | _ => false end.

(** [SEARCH_PATTERN.match(line)], the groups of the match:
    [^\s*([0-9\.]+)\s+([0-9\.\-]+)\s*$].  Blanks and the two character
    classes are disjoint, so the greedy scan never has to back up. *)
Definition SEARCH_PATTERN (line : text) : option (list text) :=
  let r0 := drop_while is_space line in
  let g1 := take_while is_digit_dot r0 in
  let r1 := drop_while is_digit_dot r0 in
  let s2 := take_while is_space r1 in
  let r2 := drop_while is_space r1 in
  let g2 := take_while is_digit_dot_minus r2 in
  let r3 := drop_while is_digit_dot_minus r2 in
  let r4 := drop_while is_space r3 in
  if (negb (is_empty g1) && negb (is_empty s2) && negb (is_empty g2)
      && is_empty r4)%bool
  then Some [g1; g2] else None.

(** What the regular expression denotes: a line
    [blanks* group1 blanks+ group2 blanks*]. *)
Definition matches_pattern (line g1 g2 : text) : Prop :=
  exists s1 s2 s3 : text,
    line = s1 ++ g1 ++ s2 ++ g2 ++ s3 /\
    forallb is_space s1 = true /\
    g1 <> [] /\ forallb is_digit_dot g1 = true /\
    s2 <> [] /\ forallb is_space s2 = true /\
    g2 <> [] /\ forallb is_digit_dot_minus g2 = true /\
    forallb is_space s3 = true.

(** A run of [p] followed by the end or by a character outside [p]. *)
Definition stops (p : N -> bool) (r : text) : Prop :=
  match r with
  | [] => True
  | c :: _ => p c = false
  end.

(** The line boundaries of [str.splitlines()]. *)
Definition is_linebreak (c : N) : bool :=
  ((10 <=? c) && (c <=? 13) || (28 <=? c) && (c <=? 30)
   || (c =? 133) || (c =? 8232) || (c =? 8233))%N%bool.

Fixpoint splitlines_from (s : text) (cur : text) (after_cr : bool) : list text :=
  match s with
  | [] => if is_empty cur then [] else [rev cur]
  | c :: r =>
      if (after_cr && (c =? 10)%N)%bool then splitlines_from r [] false
      else if is_linebreak c then rev cur :: splitlines_from r [] (c =? 13)%N
      else splitlines_from r (c :: cur) false
  end.

(** [s.splitlines()]. *)
Definition splitlines (s : text) : list text := splitlines_from s [] false.

(** The digits of a decimal literal, most significant first. *)
Fixpoint digits_value (acc : Z) (ds : text) : Z :=
  match ds with
  | [] => acc
  | d :: r => digits_value (acc * 10 + (Z.of_N d - 48))%Z r
  end.

Fixpoint pow10 (n : nat) : positive :=
  match n with
  | O => 1%positive
  | S k => (10 * pow10 k)%positive
  end.

(** [digits [. digits]] or [. digits], with a digit somewhere. *)
Definition parse_unsigned (t : text) : option Q :=
  let ip := take_while is_digit t in
  match drop_while is_digit t with
  | [] => if is_empty ip then None else Some (inject_Z (digits_value 0 ip))
  | c :: fp =>
      if ((c =? 46)%N && forallb is_digit fp
          && negb (is_empty ip && is_empty fp))%bool
      then Some (Qmake (digits_value 0 (ip ++ fp)) (pow10 (length fp)))
      else None
  end.

(** [float(t)] on a plain signed decimal literal; [ValueError] otherwise.
    (Exponents, [inf]/[nan] and digit separators cannot occur in a group of
    [SEARCH_PATTERN] and are left out; the value is the exact decimal, the
    rounding to [float32] is not modelled.) *)
Definition parse_float (t : text) : exc Q :=
  let r :=
    match t with
    | c :: u =>
        if (c =? 45)%N then option_map Qopp (parse_unsigned u)
        else if (c =? 43)%N then parse_unsigned u
        else parse_unsigned t
    | [] => parse_unsigned t
    end in
  match r with
  | Some q => Ok q
  | None => Raise ValueError
  end.

Fixpoint parse_row (groups : list text) : exc (list R) :=
  match groups with
  | [] => Ok []
  | g :: r => (q <- parse_float g ;; row <- parse_row r ;; Ok (Q2R q :: row))%exc
  end.

Fixpoint parse_rows (rows : list (list text)) : exc ndarray :=
  match rows with
  | [] => Ok []
  | g :: r => (row <- parse_row g ;; rest <- parse_rows r ;; Ok (row :: rest))%exc
  end.

(** [np.asarray(rows, dtype=np.float32)] on rows of strings: every string is
    converted; rows of unequal length are refused. *)
Definition asarray_float32 (rows : list (list text)) : exc ndarray :=
  match rows with
  | [] => Ok []
  | g :: _ =>
      if forallb (fun r => (length r =? length g)%nat) rows
      then parse_rows rows else Raise ValueError
  end.

(** [[match.groups() for line in page_content if (match := pattern.match(line))]]. *)
Fixpoint matched_groups (pattern : text -> option (list text))
    (page_content : list text) : list (list text) :=
  match page_content with
  | [] => []
  | line :: r =>
      match pattern line with
      | Some groups => groups :: matched_groups pattern r
      | None => matched_groups pattern r
      end
  end.

(** The lines the comprehension keeps, in page order. *)
Definition kept_lines (page_content : list text) : list text :=
  filter (fun line => match SEARCH_PATTERN line with
                      | Some _ => true
                      | None => false
                      end) page_content.

(** [row] is the numeric row read off a kept [line]. *)
Definition row_of_line (line : text) (row : list R) : Prop :=
  exists (g1 g2 : text) (q1 q2 : Q),
    matches_pattern line g1 g2 /\
    parse_float g1 = Ok q1 /\ parse_float g2 = Ok q2 /\
    row = [Q2R q1; Q2R q2] /\ (0 <= q1)%Q.

Section Programs.

Context {os : OS} {fitpack : SplineLibrary}.

(** [get_url_content(url)]. *)
Definition get_url_content (url : string) : M bytes :=
  fun st =>
    match requests_get (world st) url with
    | (Ok page, w') =>
        let st' := {| world := w'; stdout := stdout st |} in
        if negb (status_code page =? 200)%Z then (Raise HTTPError, st')
        else (Ok (content page), st')
    | (Raise e, w') => (Raise e, {| world := w'; stdout := stdout st |})
    end.

(** [read_airfoil_data(url, pattern)]. *)
Definition read_airfoil_data (url : string)
    (pattern : text -> option (list text)) : M ndarray :=
  (page <- get_url_content url ;;
   decoded <- lift (decode page) ;;
   let page_content := splitlines decoded in
   lift (asarray_float32 (matched_groups pattern page_content)))%io.

(** ** airfoildb/io.py *)

(** [list_files_in_directory(directory, extension)]. *)
Definition list_files_in_directory (directory extension : string)
    : M (list string) :=
  fun st =>
    if negb (is_dir (world st) directory) then (Raise TypeError, st)
    else (Ok (sorted (glob (world st) (directory ++ "/*" ++ extension)%string)), st).

(** [export_airfoil_data(url, output_dir, force)]. *)
Definition export_airfoil_data (url output_dir : string) (force : bool)
    : M unit :=
  let filename := last_component url in
  let output := path_join output_dir filename in
  fun st =>
    if (negb (is_file (world st) output) || force)%bool
    then (print ("+ " ++ url ++ " -> " ++ output)%string ;;
          data <- read_airfoil_data url SEARCH_PATTERN ;;
          modify (fun w => savetxt w output data "%.6e"))%io st
    else (Ok tt, st).

(** The default [rename_fn]: [out / f"uniform_{file.split('/')[-1]}"]. *)
Definition default_rename_fn (out file : string) : string :=
  path_join out ("uniform_" ++ last_component file)%string.

(** [export_as_bspline(file, output_dir, func, rename_fn, force)].  [func] is
    any callable; it may raise and may have effects of its own. *)
Definition export_as_bspline (file output_dir : string)
    (func : ndarray -> M ndarray)
    (rename_fn : string -> string -> string) (force : bool) : M unit :=
  let output := rename_fn output_dir file in
  fun st =>
    if (negb (is_file (world st) output) || force)%bool
    then (data <- ask (fun w => genfromtxt w file) ;;
          spline <- func (transpose data) ;;
          modify (fun w => savetxt w output spline "%.18e"))%io st
    else (Ok tt, st).

(** ** airfoildb/cli.py *)

(** The body of the [for] loop of [uniformize]. *)
Definition uniformize_item (output : string) (num_points degree : Z)
    (unsmoother : R) (force : bool) (file : string) : M unit :=
  try_except_ValueError
    (export_as_bspline file output
       (fun original =>
          lift (curvature_based_bspline original num_points degree
                  default_s unsmoother))
       default_rename_fn force).

(** [uniformize(database, output, num_points, degree, unsmoother, force)]. *)
Definition uniformize (database output : string) (num_points degree : Z)
    (unsmoother : R) (force : bool) : M unit :=
  (modify (fun w => mkdir w output) ;;
   files <- list_files_in_directory database ".dat" ;;
   for_each files (uniformize_item output num_points degree unsmoother force))%io.

(** The defaults of the options of [uniformize]. *)
Definition uniformize_default_num_points : Z := 192.
Definition uniformize_default_degree : Z := 3.
Definition uniformize_default_unsmoother : R := 50.

End Programs.

(** ** bin/bspline.py *)

Module BinBspline.

Section Script.

Context {os : OS} {fitpack : SplineLibrary}.

(** The script carries its own copy of [curvature_based_bspline], the same
    text as the one of the package. *)
Definition curvature_based_bspline := @curvature_based_bspline fitpack.

(** [list_files_in_directory(directory, extension)] of the script. *)
Definition list_files_in_directory (directory extension : string)
    : M (list string) :=
  (names <- ask (fun w => listdir w directory) ;;
   ret (filter (fun file => endswith file extension) names))%io.

(** The default [renaming]. *)
Definition default_renaming (out file : string) : string :=
  path_join out ("uniform_" ++ last_component file)%string.

(** [export_as_bspline(file, output_dir, func, renaming, force)]. *)
Definition export_as_bspline (file output_dir : string)
    (func : ndarray -> M ndarray)
    (renaming : string -> string -> string) (force : bool) : M unit :=
  let output := renaming output_dir file in
  fun st =>
    if (negb (is_file (world st) output) || force)%bool
    then (data <- ask (fun w => genfromtxt w file) ;;
          spline <- func (transpose data) ;;
          modify (fun w => savetxt w output spline "%.18e"))%io st
    else (Ok tt, st).

(** The parsed command line. *)
Record args : Type := {
  n : Z;
  k : Z;
  s : Z;
  database : string;
  output : string;
  force : bool
}.

(** The [default=] of every option of the parser. *)
Definition default_args : args := {|
  n := 200;
  k := 3;
  s := 30;
  database := "./data/database";
  output := "./data/uniform";
  force := false
|}.

(** The body of the [for] loop of the script. *)
Definition main_item (a : args) (file : string) : M unit :=
  try_except_ValueError
    (export_as_bspline (path_join (database a) file) (output a)
       (fun original =>
          lift (curvature_based_bspline original (n a) (k a)
                  default_s (IZR (s a))))
       default_renaming (force a)).

(** The [if __name__ == "__main__":] block, after argument parsing. *)
Definition main (a : args) : M unit :=
  ((fun st =>
      if negb (path_exists (world st) (output a))
      then modify (fun w => makedirs w (output a)) st
      else (Ok tt, st)) ;;
   files <- list_files_in_directory (database a) ".dat" ;;
   for_each files (main_item a))%io.

End Script.

End BinBspline.

(** ** The entry points and their defaults *)

Inductive entry_point : Type :=
| PackageFunction   (* airfoildb.bspline.curvature_based_bspline *)
| CliUniformize     (* airfoildb.cli.uniformize *)
| ScriptFunction    (* curvature_based_bspline of bin/bspline.py *)
| ScriptMain.       (* the command line of bin/bspline.py *)

(** The default number of output points of an entry point. *)
Definition npoints_default (e : entry_point) : Z :=
  match e with
  | PackageFunction => default_npoints
  | CliUniformize => uniformize_default_num_points
  | ScriptFunction => default_npoints
  | ScriptMain => BinBspline.n BinBspline.default_args
  end.

(** The default spline degree of an entry point. *)
Definition degree_default (e : entry_point) : Z :=
  match e with
  | PackageFunction => default_k
  | CliUniformize => uniformize_default_degree
  | ScriptFunction => default_k
  | ScriptMain => BinBspline.k BinBspline.default_args
  end.

(** The default curvature bias of an entry point. *)
Definition bias_default (e : entry_point) : R :=
  match e with
  | PackageFunction => default_smoother
  | CliUniformize => uniformize_default_unsmoother
  | ScriptFunction => default_smoother
  | ScriptMain => IZR (BinBspline.s BinBspline.default_args)
  end.

(** ** Stand-ins for the environment, for examples *)

(** A spline library whose fitter refuses every input. *)
Definition degenerate_library : SplineLibrary := {|
  tck := unit;
  splprep := fun _ _ _ => Raise ValueError;
  degree := fun _ => 3%Z;
  splev_at := fun _ _ _ => (0, 0)
|}.

Fixpoint lookup (files : list (string * ndarray)) (path : string)
    : option ndarray :=
  match files with
  | [] => None
  | (p, a) :: r => if String.eqb p path then Some a else lookup r path
  end.

(** A flat in-memory store of numeric files and a server that answers every
    request with the same page. *)
Definition memory_os (page : bytes) : OS := {|
  World := list (string * ndarray);
  is_file := fun w p => match lookup w p with Some _ => true | None => false end;
  is_dir := fun _ _ => true;
  path_exists := fun _ _ => true;
  mkdir := fun w _ => Ok w;
  makedirs := fun w _ => Ok w;
  glob := fun w _ => map fst w;
  listdir := fun w _ => Ok (map fst w);
  genfromtxt := fun w p =>
    match lookup w p with Some a => Ok a | None => Raise OSError end;
  savetxt := fun w p a _ => Ok ((p, a) :: w);
  requests_get := fun w _ => (Ok {| status_code := 200; content := page |}, w);
  decode := fun b => Ok (str b)
|}.

Definition newline : string := String (ascii_of_nat 10) EmptyString.

(** A page in the format of the airfoil database: a title, two coordinate
    lines, and one line whose first column is negative. *)
Definition sample_page : bytes :=
  ("NACA 0012 AIRFOILS" ++ newline ++
   " 1.000000  0.001260" ++ newline ++
   " 0.500000 -0.052940" ++ newline ++
   "-0.100000  0.200000" ++ newline)%string.

Definition sample_os : OS := memory_os sample_page.

Definition is_empty_list {A : Type} (l : list A) : bool :=
  match l with [] => true | _ => false end.

(** A second stand-in, with directories and failures: files are kept under
    their full path, a directory exists when a file lies under it, a file
    whose rows differ in length cannot be parsed, and the server answers
    every request with status 404. *)

Fixpoint before_star (pattern : string) : string :=
  match pattern with
  | EmptyString => EmptyString
  | String c r => if Ascii.eqb c "*" then EmptyString else String c (before_star r)
  end.

Fixpoint after_star (pattern : string) : string :=
  match pattern with
  | EmptyString => EmptyString
  | String c r => if Ascii.eqb c "*" then r else after_star r
  end.

Definition strip_prefix (p s : string) : option string :=
  if prefix p s
  then Some (substring (String.length p) (String.length s - String.length p) s)
  else None.

(** The names directly under the path prefix [d] (which ends with a slash). *)
Definition entries (w : list (string * ndarray)) (d : string) : list string :=
  flat_map (fun f => match strip_prefix d (fst f) with
                     | Some base => if has_slash base then [] else [base]
                     | None => []
                     end) w.

Definition rectangular (a : ndarray) : bool :=
  match a with
  | [] => true
  | r :: _ => forallb (fun row => (length row =? length r)%nat) a
  end.

Definition disk_os : OS := {|
  World := list (string * ndarray);
  is_file := fun w p => match lookup w p with Some _ => true | None => false end;
  is_dir := fun w p => negb (is_empty_list (entries w (p ++ "/")%string));
  path_exists := fun w p =>
    (match lookup w p with Some _ => true | None => false end
     || negb (is_empty_list (entries w (p ++ "/")%string)))%bool;
  mkdir := fun w p =>
    match lookup w p with Some _ => Raise OSError | None => Ok w end;
  makedirs := fun w p =>
    match lookup w p with Some _ => Raise OSError | None => Ok w end;
  glob := fun w pattern =>
    map (fun base => (before_star pattern ++ base)%string)
        (filter (fun base => endswith base (after_star pattern))
                (entries w (before_star pattern)));
  listdir := fun w p =>
    match entries w (p ++ "/")%string with
    | [] => Raise OSError
    | names => Ok names
    end;
  genfromtxt := fun w p =>
    match lookup w p with
    | Some a => if rectangular a then Ok a else Raise ValueError
    | None => Raise OSError
    end;
  savetxt := fun w p a _ => Ok ((p, a) :: w);
  requests_get := fun w _ =>
    (Ok {| status_code := 404; content := EmptyString |}, w);
  decode := fun b => Ok (str b)
|}.

(** The order [sorted] sorts by. *)
Definition string_le (a b : string) : Prop := String.leb a b = true.

(** A page with a coordinate line whose first field is no number. *)
Definition malformed_page : bytes :=
  ("E61 AIRFOIL" ++ newline ++
   " 1.2.3  0.001260" ++ newline)%string.

(** ** Order on arrays *)

Definition strictly_increasing (a : array1) : Prop :=
  forall i j : nat, (i < j < length a)%nat -> nth i a 0 < nth j a 0.

Definition non_decreasing (a : array1) : Prop :=
  forall i j : nat, (i <= j < length a)%nat -> nth i a 0 <= nth j a 0.

(** Every entry is smaller than its right neighbour. *)
Fixpoint ascending (a : array1) : Prop :=
  match a with
  | x :: (y :: _) as r => x < y /\ ascending r
  | _ => True
  end.

(** A stand-in for the spline library in examples: whatever the samples, the
    fitted curve is the arc of parabola [(u, u^2)] over [[0, 1]], of degree 3. *)
Definition parabola_library : SplineLibrary := {|
  tck := unit;
  splprep := fun _ _ _ => Ok (tt, [0; 1]);
  degree := fun _ => 3%Z;
  splev_at := fun _ der u =>
    if (der =? 0)%Z then (u, u * u)
    else if (der =? 1)%Z then (1, 2 * u)
    else if (der =? 2)%Z then (0, 2)
    else (0, 0)
|}.

(** A stand-in whose fitted curve is the segment [(u, u)] over [[0, 1]], a
    spline of degree 1. *)
Definition polyline_library : SplineLibrary := {|
  tck := unit;
  splprep := fun _ _ _ => Ok (tt, [0; 1]);
  degree := fun _ => 1%Z;
  splev_at := fun _ der u =>
    if (der =? 0)%Z then (u, u)
    else if (der =? 1)%Z then (1, 1)
    else (0, 0)
|}.

(** Two consecutive samples coincide. *)
Fixpoint repeated_point (xs ys : list R) : bool :=
  match xs, ys with
  | x1 :: ((x2 :: _) as xs'), y1 :: ((y2 :: _) as ys') =>
      ((if Req_dec_T x1 x2 then (if Req_dec_T y1 y2 then true else false)
        else false)
       || repeated_point xs' ys')%bool
  | _, _ => false
  end.

(** A stand-in that refuses what FITPACK refuses: [TypeError] unless there
    are more samples than the degree, [ValueError] when two consecutive
    samples coincide; otherwise the fitted curve is the arc of parabola
    [(u, u^2)] over [[0, 1]], of the degree asked for. *)
Definition picky_library : SplineLibrary := {|
  tck := Z;
  splprep := fun original k _ =>
    match original with
    | [xs; ys] =>
        if (length xs <=? Z.to_nat k)%nat then Raise TypeError
        else if repeated_point xs ys then Raise ValueError
        else Ok (k, [0; 1])
    | _ => Raise TypeError
    end;
  degree := fun k => k;
  splev_at := fun _ der u =>
    if (der =? 0)%Z then (u, u * u)
    else if (der =? 1)%Z then (1, 2 * u)
    else if (der =? 2)%Z then (0, 2)
    else (0, 0)
|}.

(** Order of [(x, y)] pairs by their abscissa. *)
Definition key_le (p q : R * R) : Prop := fst p <= fst q.

(** A ParameterGrid: [linspace(u_min, u_max, n)] over a proper interval,
    with two points or more. *)
Definition is_parameter_grid (uu : array1) : Prop :=
  exists (u_min u_max : R) (n : Z),
    u_min < u_max /\ (2 <= n)%Z /\ linspace u_min u_max n = Ok uu.

(** The velocity [(dx, dy)] vanishes nowhere along the two arrays. *)
Fixpoint regular (dx dy : array1) : Prop :=
  match dx, dy with
  | a :: dx', b :: dy' => ~ (a = 0 /\ b = 0) /\ regular dx' dy'
  | _, _ => True
  end.

(** * Properties *)

(** ** Arrays and order *)

Lemma ascending_nth_succ (a : array1) (i : nat) :
  ascending a -> (S i < length a)%nat -> nth i a 0 < nth (S i) a 0.
Proof.
  revert i. induction a as [|x [|y r] IH]; intros i Ha Hi; simpl in Hi; try lia.
  destruct Ha as [Hxy Hr]. destruct i as [|i].
  - exact Hxy.
  - change (nth i (y :: r) 0 < nth (S i) (y :: r) 0).
    apply IH; [exact Hr | simpl; lia].
Qed.

Lemma adjacent_strictly_increasing (a : array1) :
  (forall i, (S i < length a)%nat -> nth i a 0 < nth (S i) a 0) ->
  strictly_increasing a.
Proof.
  intros Hadj i j [Hij Hj].
  induction j as [|j IH]; [lia|].
  destruct (Nat.eq_dec i j) as [->|Hne].
  - apply Hadj. exact Hj.
  - apply Rlt_trans with (nth j a 0).
    + apply IH; lia.
    + apply Hadj. exact Hj.
Qed.

Lemma ascending_strictly_increasing (a : array1) :
  ascending a -> strictly_increasing a.
Proof.
  intro Ha. apply adjacent_strictly_increasing.
  intros i Hi. apply ascending_nth_succ; assumption.
Qed.

Lemma strictly_increasing_non_decreasing (a : array1) :
  strictly_increasing a -> non_decreasing a.
Proof.
  intros Ha i j [Hij Hj].
  destruct (Nat.eq_dec i j) as [->|Hne]; [apply Rle_refl|].
  apply Rlt_le, Ha. lia.
Qed.

Lemma strictly_increasing_tail (x : R) (a : array1) :
  strictly_increasing (x :: a) -> strictly_increasing a.
Proof.
  intros Ha i j Hij. apply (Ha (S i) (S j)). simpl. lia.
Qed.

Lemma strictly_increasing_injective (a : array1) (i j : nat) :
  strictly_increasing a -> (i < length a)%nat -> (j < length a)%nat ->
  nth i a 0 = nth j a 0 -> i = j.
Proof.
  intros Ha Hi Hj Heq.
  destruct (Nat.lt_trichotomy i j) as [Hlt|[Heq'|Hgt]]; [|exact Heq'|].
  - pose proof (Ha i j (conj Hlt Hj)). lra.
  - pose proof (Ha j i (conj Hgt Hi)). lra.
Qed.

Lemma Rltb_true (a b : R) : Rltb a b = true <-> a < b.
Proof. unfold Rltb. destruct (Rlt_dec a b); split; intros; try easy. Qed.

Lemma Rltb_false (a b : R) : Rltb a b = false <-> b <= a.
Proof.
  unfold Rltb. destruct (Rlt_dec a b); split; intros; try easy; lra.
Qed.

Lemma Ok_inj {A : Type} (a b : A) : Ok a = Ok b -> a = b.
Proof. intro H. injection H. trivial. Qed.

(** ** linspace *)

Lemma seq_snoc (n : nat) : seq 0 (S n) = seq 0 n ++ [n].
Proof. rewrite seq_S. reflexivity. Qed.

Lemma set_last_map_seq (f : nat -> R) (n : nat) (v : R) :
  set_last (map f (seq 0 (S n))) v = map f (seq 0 n) ++ [v].
Proof.
  unfold set_last. rewrite seq_snoc, map_app.
  change (map f [n]) with [f n]. rewrite removelast_last.
  destruct (map f (seq 0 n) ++ [f n]) eqn:E; [|reflexivity].
  destruct (map f (seq 0 n)); discriminate.
Qed.

(** With two samples or more, [linspace] is the affine ramp with its last
    sample put at [stop]. *)
Lemma linspace_ramp (start stop : R) (n : nat) :
  linspace start stop (Z.of_nat (S (S n))) =
  Ok (map (fun i => INR i * ((stop - start) / INR (S n)) + start)
          (seq 0 (S n)) ++ [stop]).
Proof.
  unfold linspace.
  destruct (Z.of_nat (S (S n)) <? 0)%Z eqn:E; [apply Z.ltb_lt in E; lia|].
  rewrite Nat2Z.id.
  replace (S (S n) - 1)%nat with (S n) by lia.
  replace (0 <? S n)%nat with true by (symmetry; apply Nat.ltb_lt; lia).
  replace (1 <? S (S n))%nat with true by (symmetry; apply Nat.ltb_lt; lia).
  rewrite set_last_map_seq. reflexivity.
Qed.

Lemma linspace_length (start stop : R) (num : Z) (y : array1) :
  linspace start stop num = Ok y -> Z.of_nat (length y) = num.
Proof.
  unfold linspace. destruct (num <? 0)%Z eqn:E; [discriminate|].
  apply Z.ltb_ge in E. intro H. injection H as <-.
  assert (Hlen : forall f : nat -> R,
             length (map f (seq 0 (Z.to_nat num))) = Z.to_nat num).
  { intro f. rewrite length_map, length_seq. reflexivity. }
  destruct (0 <? Z.to_nat num - 1)%nat; destruct (1 <? Z.to_nat num)%nat eqn:E1;
    try (rewrite Hlen; lia).
  - apply Nat.ltb_lt in E1. destruct (Z.to_nat num) as [|m] eqn:Em; [lia|].
    rewrite set_last_map_seq, length_app, length_map, length_seq. simpl. lia.
  - apply Nat.ltb_lt in E1. destruct (Z.to_nat num) as [|m] eqn:Em; [lia|].
    rewrite set_last_map_seq, length_app, length_map, length_seq. simpl. lia.
Qed.

Lemma linspace_ok (start stop : R) (num : Z) :
  (0 <= num)%Z -> exists y, linspace start stop num = Ok y.
Proof.
  intro H. unfold linspace.
  destruct (num <? 0)%Z eqn:E; [apply Z.ltb_lt in E; lia|].
  eexists. reflexivity.
Qed.

Lemma linspace_nth (start stop : R) (n i : nat) (y : array1) :
  linspace start stop (Z.of_nat (S (S n))) = Ok y -> (i < S (S n))%nat ->
  nth i y 0 = start + INR i * ((stop - start) / INR (S n)).
Proof.
  rewrite linspace_ramp. intro H. apply Ok_inj in H. subst y. intro Hi.
  destruct (Nat.eq_dec i (S n)) as [->|Hne].
  - rewrite app_nth2; rewrite length_map, length_seq; [|lia].
    rewrite Nat.sub_diag. simpl nth.
    assert (INR (S n) <> 0) by (apply not_0_INR; lia).
    field. assumption.
  - rewrite app_nth1; [|rewrite length_map, length_seq; lia].
    set (f := fun i : nat => INR i * ((stop - start) / INR (S n)) + start).
    rewrite (nth_indep _ 0 (f 0%nat)); [|rewrite length_map, length_seq; lia].
    rewrite map_nth, seq_nth; [|lia]. unfold f. simpl Nat.add. lra.
Qed.

Lemma linspace_zero (start stop : R) : linspace start stop 0 = Ok [].
Proof. reflexivity. Qed.

Lemma linspace_one (start stop : R) :
  linspace start stop 1 = Ok [INR 0 * (stop - start) + start].
Proof. reflexivity. Qed.

Lemma count_cases (num : Z) :
  (0 <= num)%Z ->
  num = 0%Z \/ num = 1%Z \/ exists n : nat, num = Z.of_nat (S (S n)).
Proof.
  intro H. destruct (Z.eq_dec num 0) as [->|H0]; [now left|].
  destruct (Z.eq_dec num 1) as [->|H1]; [now right; left|].
  right. right. exists (Z.to_nat num - 2)%nat. lia.
Qed.

Lemma INR_ratio_bounds (i n : nat) :
  (i <= S n)%nat -> 0 <= INR i / INR (S n) <= 1.
Proof.
  intro Hi.
  assert (Hn : 0 < INR (S n)) by (apply lt_0_INR; lia).
  assert (H0 : 0 <= INR i) by apply pos_INR.
  assert (H1 : INR i <= INR (S n)) by (apply le_INR; exact Hi).
  split.
  - apply Rmult_le_pos; [exact H0 | left; apply Rinv_0_lt_compat; exact Hn].
  - apply Rmult_le_reg_r with (INR (S n)); [exact Hn|].
    unfold Rdiv. rewrite Rmult_assoc, Rinv_l; lra.
Qed.

Lemma linspace_nth_bounds (start stop : R) (num : Z) (y : array1) (i : nat) :
  start <= stop -> linspace start stop num = Ok y -> (i < length y)%nat ->
  start <= nth i y 0 <= stop.
Proof.
  intros Hle Hy Hi.
  pose proof (linspace_length _ _ _ _ Hy) as Hlen.
  destruct (count_cases num) as [->|[->|[n ->]]]; [lia| | |].
  - rewrite linspace_zero in Hy. apply Ok_inj in Hy. subst y. simpl in Hi. lia.
  - rewrite linspace_one in Hy. apply Ok_inj in Hy. subst y.
    simpl in Hi. destruct i; [|lia]. simpl. lra.
  - rewrite (linspace_nth _ _ n i y Hy) by lia.
    destruct (INR_ratio_bounds i n) as [H0 H1]; [lia|].
    replace (INR i * ((stop - start) / INR (S n)))
      with ((stop - start) * (INR i / INR (S n))) by (unfold Rdiv; ring).
    nra.
Qed.

Lemma linspace_non_decreasing (start stop : R) (num : Z) (y : array1) :
  start <= stop -> linspace start stop num = Ok y -> non_decreasing y.
Proof.
  intros Hle Hy i j [Hij Hj].
  pose proof (linspace_length _ _ _ _ Hy) as Hlen.
  destruct (count_cases num) as [->|[->|[n ->]]]; [lia| | |].
  - simpl in Hlen. lia.
  - assert (i = 0%nat /\ j = 0%nat) as [-> ->] by lia. apply Rle_refl.
  - rewrite (linspace_nth _ _ n i y Hy), (linspace_nth _ _ n j y Hy) by lia.
    assert (Hn : 0 < INR (S n)) by (apply lt_0_INR; lia).
    assert (Hs : 0 <= (stop - start) / INR (S n)).
    { apply Rmult_le_pos; [lra | left; apply Rinv_0_lt_compat; exact Hn]. }
    assert (INR i <= INR j) by (apply le_INR; exact Hij).
    nra.
Qed.

Lemma linspace_strictly_increasing (start stop : R) (num : Z) (y : array1) :
  start < stop -> linspace start stop num = Ok y -> strictly_increasing y.
Proof.
  intros Hlt Hy i j [Hij Hj].
  pose proof (linspace_length _ _ _ _ Hy) as Hlen.
  destruct (count_cases num) as [->|[->|[n ->]]]; [lia| | |].
  - simpl in Hlen. lia.
  - lia.
  - rewrite (linspace_nth _ _ n i y Hy), (linspace_nth _ _ n j y Hy) by lia.
    assert (Hn : 0 < INR (S n)) by (apply lt_0_INR; lia).
    assert (Hs : 0 < (stop - start) / INR (S n)).
    { apply Rmult_lt_0_compat; [lra | apply Rinv_0_lt_compat; exact Hn]. }
    assert (INR i < INR j) by (apply lt_INR; exact Hij).
    nra.
Qed.

Lemma linspace_first (start stop : R) (num : Z) (y : array1) :
  (1 <= num)%Z -> linspace start stop num = Ok y -> nth 0 y 0 = start.
Proof.
  intros Hn Hy.
  destruct (count_cases num) as [->|[->|[n ->]]]; [lia|lia| |].
  - rewrite linspace_one in Hy. apply Ok_inj in Hy. subst y. simpl. lra.
  - rewrite (linspace_nth _ _ n 0 y Hy) by lia. simpl. lra.
Qed.

Lemma linspace_last (start stop : R) (num : Z) (y : array1) :
  (2 <= num)%Z -> linspace start stop num = Ok y ->
  nth (length y - 1) y 0 = stop.
Proof.
  intros Hn Hy.
  pose proof (linspace_length _ _ _ _ Hy) as Hlen.
  destruct (count_cases num) as [->|[->|[n ->]]]; [lia|lia|lia|].
  replace (length y - 1)%nat with (S n) by lia.
  rewrite (linspace_nth _ _ n (S n) y Hy) by lia.
  assert (INR (S n) <> 0) by (apply not_0_INR; lia).
  field. assumption.
Qed.

(** ** cumtrapz *)

Lemma strictly_increasing_ascending (a : array1) :
  strictly_increasing a -> ascending a.
Proof.
  induction a as [|x [|y r] IH]; intro Ha; simpl; auto.
  split.
  - apply (Ha 0%nat 1%nat). simpl. lia.
  - apply IH. apply strictly_increasing_tail with x. exact Ha.
Qed.

Lemma trapezoids_cons (c d : R) (y : array1) (a b : R) (x : array1) :
  trapezoids (c :: d :: y) (a :: b :: x) =
  (b - a) * (d + c) / 2 :: trapezoids (d :: y) (b :: x).
Proof. reflexivity. Qed.

Lemma trapezoids_length (y x : array1) :
  length x = length y -> length (trapezoids y x) = (length x - 1)%nat.
Proof.
  revert y. induction x as [|a [|b x] IH]; intros [|c [|d y]] H;
    try discriminate; try reflexivity.
  rewrite trapezoids_cons. simpl length at 1.
  rewrite (IH (d :: y)); [simpl; lia | simpl in *; lia].
Qed.

Lemma trapezoids_positive (y x : array1) :
  length x = length y -> ascending x -> Forall (fun c => 0 < c) y ->
  Forall (fun t => 0 < t) (trapezoids y x).
Proof.
  revert y. induction x as [|a [|b x] IH]; intros [|c [|d y]] H Hx Hy;
    try discriminate; try (constructor; fail).
  rewrite trapezoids_cons. destruct Hx as [Hab Hx].
  pose proof (Forall_inv Hy) as Hc. pose proof (Forall_inv_tail Hy) as Hy'.
  pose proof (Forall_inv Hy') as Hd.
  constructor.
  - assert (0 < (b - a) * (d + c)) by (apply Rmult_lt_0_compat; lra). lra.
  - apply IH; [simpl in *; lia | exact Hx | exact Hy'].
Qed.

Lemma cumsum_from_length (acc : R) (t : array1) :
  length (cumsum_from acc t) = length t.
Proof. revert acc. induction t; intro acc; simpl; auto. Qed.

Lemma cumsum_length (t : array1) : length (cumsum t) = length t.
Proof. destruct t; simpl; [|rewrite cumsum_from_length]; reflexivity. Qed.

Lemma cumsum_from_ascending (acc : R) (t : array1) :
  Forall (fun v => 0 < v) t -> ascending (acc :: cumsum_from acc t).
Proof.
  revert acc. induction t as [|v t IH]; intros acc Ht; simpl; auto.
  split.
  - pose proof (Forall_inv Ht). lra.
  - apply IH. exact (Forall_inv_tail Ht).
Qed.

Lemma cumsum_ascending (t : array1) :
  Forall (fun v => 0 < v) t -> ascending (0 :: cumsum t).
Proof.
  destruct t as [|v t]; intro Ht; simpl; auto.
  split.
  - exact (Forall_inv Ht).
  - apply cumsum_from_ascending. exact (Forall_inv_tail Ht).
Qed.

Lemma cumtrapz_ok (y x : array1) :
  length x = length y -> y <> [] ->
  cumtrapz y x = Ok (0 :: cumsum (trapezoids y x)).
Proof.
  intros Hlen Hy. unfold cumtrapz.
  rewrite Hlen, Nat.eqb_refl. simpl negb. simpl orb.
  destruct y; [contradiction|reflexivity].
Qed.

Lemma cumtrapz_length (y x ci : array1) :
  cumtrapz y x = Ok ci -> length ci = length x /\ length y = length x.
Proof.
  unfold cumtrapz.
  destruct (length x =? length y)%nat eqn:E; simpl; [|discriminate].
  apply Nat.eqb_eq in E.
  destruct (length y =? 0)%nat eqn:E0; [discriminate|].
  apply Nat.eqb_neq in E0.
  intro H. apply Ok_inj in H. subst ci. simpl.
  rewrite cumsum_length, trapezoids_length by exact E. lia.
Qed.

(** The running integral of a positive sample over an ascending grid. *)
Lemma cumtrapz_ascending (y x : array1) :
  length y = length x -> y <> [] -> ascending x ->
  Forall (fun c => 0 < c) y ->
  exists ci, cumtrapz y x = Ok ci /\ length ci = length x /\
             nth 0 ci 0 = 0 /\ strictly_increasing ci.
Proof.
  intros Hlen Hy Hx Hpos.
  exists (0 :: cumsum (trapezoids y x)).
  split; [apply cumtrapz_ok; [symmetry; exact Hlen | exact Hy]|].
  split.
  - simpl. rewrite cumsum_length, trapezoids_length by (symmetry; exact Hlen).
    destruct x; [destruct y; [contradiction|discriminate]|simpl; lia].
  - split; [reflexivity|].
    apply ascending_strictly_increasing, cumsum_ascending.
    apply trapezoids_positive; [symmetry; exact Hlen | exact Hx | exact Hpos].
Qed.

Lemma parameter_grid_strictly_increasing (uu : array1) :
  is_parameter_grid uu -> strictly_increasing uu.
Proof.
  intros (u_min & u_max & n & Hlt & Hn & Hy).
  exact (linspace_strictly_increasing _ _ _ _ Hlt Hy).
Qed.

Lemma parameter_grid_length (uu : array1) :
  is_parameter_grid uu -> (2 <= length uu)%nat.
Proof.
  intros (u_min & u_max & n & Hlt & Hn & Hy).
  pose proof (linspace_length _ _ _ _ Hy). lia.
Qed.

(** ** The curvature field *)

Lemma pow_1_5_zero : pow_1_5 0 = 0.
Proof. unfold pow_1_5. destruct (Rle_dec 0 0); [reflexivity|lra]. Qed.

Lemma pow_1_5_pos (b : R) : 0 < b -> 0 < pow_1_5 b.
Proof.
  intro Hb. unfold pow_1_5. destruct (Rle_dec b 0); [lra|].
  unfold Rpower. apply exp_pos.
Qed.

(** [b ** 1.5] is [b * sqrt b]. *)
Lemma pow_1_5_sqrt (b : R) : 0 <= b -> pow_1_5 b = b * sqrt b.
Proof.
  intro Hb. unfold pow_1_5. destruct (Rle_dec b 0) as [H0|H0].
  - assert (b = 0) by lra. subst b. rewrite sqrt_0. ring.
  - assert (Hpos : 0 < b) by lra.
    replace (3 / 2) with (1 + / 2) by lra.
    rewrite Rpower_plus, Rpower_1, Rpower_sqrt by exact Hpos. reflexivity.
Qed.

Lemma squared_speed_zero (dx dy : R) :
  dx * dx + dy * dy = 0 <-> dx = 0 /\ dy = 0.
Proof.
  split.
  - intro H. split; nra.
  - intros [-> ->]. ring.
Qed.

Lemma squared_speed_pos (dx dy : R) :
  ~ (dx = 0 /\ dy = 0) -> 0 < dx * dx + dy * dy.
Proof.
  intro H. destruct (Req_dec dx 0) as [Hx|Hx].
  - destruct (Req_dec dy 0) as [Hy|Hy]; [tauto|]. nra.
  - nra.
Qed.

Lemma curv_divisor_pos (dx dy : R) :
  ~ (dx = 0 /\ dy = 0) -> 0 < curv_divisor dx dy.
Proof. intro H. apply pow_1_5_pos, squared_speed_pos, H. Qed.

Lemma curv_at_pos (dx dy ddx ddy smoother : R) :
  ~ (dx = 0 /\ dy = 0) -> 0 < smoother -> 0 < curv_at dx dy ddx ddy smoother.
Proof.
  intros Hv Hs. unfold curv_at.
  pose proof (curv_divisor_pos dx dy Hv) as Hd. unfold curv_divisor in Hd.
  assert (0 <= Rabs (ddx * dy - dx * ddy) / pow_1_5 (dx * dx + dy * dy)).
  { apply Rmult_le_pos; [apply Rabs_pos | left; apply Rinv_0_lt_compat, Hd]. }
  lra.
Qed.

Lemma pow_1_5_Rpower (b : R) : 0 < b -> pow_1_5 b = Rpower b (3 / 2).
Proof.
  intro Hb. unfold pow_1_5. destruct (Rle_dec b 0); [lra|reflexivity].
Qed.

Lemma curv_at_formula (dx dy ddx ddy smoother : R) :
  ~ (dx = 0 /\ dy = 0) ->
  curv_at dx dy ddx ddy smoother = curvature_formula dx dy ddx ddy smoother.
Proof.
  intro Hv. unfold curv_at, curvature_formula.
  rewrite (pow_1_5_Rpower _ (squared_speed_pos dx dy Hv)).
  replace (dx ^ 2 + dy ^ 2) with (dx * dx + dy * dy) by ring.
  replace (ddx * dy - dx * ddy) with (- (dx * ddy - ddx * dy)) by ring.
  rewrite Rabs_Ropp. reflexivity.
Qed.

Lemma nth_map_lt {A : Type} (f : A -> R) (l : list A) (d : A) (i : nat) :
  (i < length l)%nat -> nth i (map f l) 0 = f (nth i l d).
Proof.
  intro Hi. rewrite (nth_indep _ 0 (f d)) by (rewrite length_map; exact Hi).
  apply map_nth.
Qed.

Lemma curv_array_length (dx dy ddx ddy : array1) (smoother : R) :
  length dy = length dx -> length ddx = length dx -> length ddy = length dx ->
  length (curv_array dx dy ddx ddy smoother) = length dx.
Proof.
  revert dy ddx ddy.
  induction dx as [|a dx IH]; intros [|b dy] [|c ddx] [|d ddy] H1 H2 H3;
    try discriminate; try reflexivity.
  simpl. f_equal. apply IH; simpl in *; lia.
Qed.

Lemma curv_array_nth (dx dy ddx ddy : array1) (smoother : R) (i : nat) :
  length dy = length dx -> length ddx = length dx -> length ddy = length dx ->
  (i < length dx)%nat ->
  nth i (curv_array dx dy ddx ddy smoother) 0 =
  curv_at (nth i dx 0) (nth i dy 0) (nth i ddx 0) (nth i ddy 0) smoother.
Proof.
  revert dy ddx ddy i.
  induction dx as [|a dx IH]; intros [|b dy] [|c ddx] [|d ddy] i H1 H2 H3 Hi;
    try discriminate; simpl in Hi; try lia.
  destruct i as [|i]; [reflexivity|].
  simpl. apply IH; simpl in *; lia.
Qed.

Lemma curv_array_positive (dx dy ddx ddy : array1) (smoother : R) :
  regular dx dy -> 0 < smoother ->
  Forall (fun c => 0 < c) (curv_array dx dy ddx ddy smoother).
Proof.
  intros Hreg Hs. revert dy ddx ddy Hreg.
  induction dx as [|a dx IH]; intros [|b dy] [|c ddx] [|d ddy] Hreg;
    try (constructor; fail).
  destruct Hreg as [Hv Hreg]. simpl. constructor.
  - apply curv_at_pos; assumption.
  - apply IH. exact Hreg.
Qed.

Section BsplineFacts.

Context {fitpack : SplineLibrary}.

Lemma splev_ok (x : array1) (t : tck) (der : Z) :
  (0 <= der <= degree t)%Z -> x <> [] ->
  splev x t der = Ok (map (fun u => fst (splev_at t der u)) x,
                      map (fun u => snd (splev_at t der u)) x).
Proof.
  intros [H0 H1] Hx. unfold splev.
  replace (0 <=? der)%Z with true by (symmetry; apply Z.leb_le; exact H0).
  replace (der <=? degree t)%Z with true by (symmetry; apply Z.leb_le; exact H1).
  destruct x; [contradiction|reflexivity].
Qed.

Lemma splev_empty (t : tck) (der : Z) : splev [] t der = Raise ValueError.
Proof.
  unfold splev. destruct ((0 <=? der)%Z && (der <=? degree t)%Z)%bool;
    reflexivity.
Qed.

Lemma splev_inv (x : array1) (t : tck) (der : Z) (r : array1 * array1) :
  splev x t der = Ok r ->
  r = (map (fun u => fst (splev_at t der u)) x,
       map (fun u => snd (splev_at t der u)) x).
Proof.
  unfold splev. destruct ((0 <=? der)%Z && (der <=? degree t)%Z)%bool;
    [|discriminate].
  destruct x; [discriminate|].
  intro H. apply Ok_inj in H. symmetry. exact H.
Qed.

Lemma curvature_sample_ok (t : tck) (uu : array1) (smoother : R) :
  (2 <= degree t)%Z -> uu <> [] ->
  exists curv, curvature_sample t uu smoother = Ok curv /\
               length curv = length uu.
Proof.
  intros Hk Hne. unfold curvature_sample.
  rewrite !splev_ok by (lia || exact Hne). simpl exc_bind.
  eexists. split; [reflexivity|].
  rewrite curv_array_length; rewrite !length_map; reflexivity.
Qed.

Lemma curvature_sample_inv (t : tck) (uu : array1) (smoother : R)
    (curv : array1) :
  curvature_sample t uu smoother = Ok curv ->
  curv = curv_array (map (fun u => fst (splev_at t 1 u)) uu)
                    (map (fun u => snd (splev_at t 1 u)) uu)
                    (map (fun u => fst (splev_at t 2 u)) uu)
                    (map (fun u => snd (splev_at t 2 u)) uu) smoother.
Proof.
  unfold curvature_sample.
  destruct (splev uu t 1) as [[dx dy]|e] eqn:E1; [|discriminate].
  destruct (splev uu t 2) as [[ddx ddy]|e] eqn:E2; [|discriminate].
  apply splev_inv in E1. apply splev_inv in E2.
  injection E1 as -> ->. injection E2 as -> ->.
  simpl. intro H. apply Ok_inj in H. symmetry. exact H.
Qed.

End BsplineFacts.

(** ** max and min of an array *)

Lemma fold_max_ge_init (r : array1) (x : R) : x <= fold_left Rmax r x.
Proof.
  revert x. induction r as [|a r IH]; intro x; simpl; [apply Rle_refl|].
  apply Rle_trans with (Rmax x a); [apply Rmax_l | apply IH].
Qed.

Lemma fold_max_ge (r : array1) (x v : R) :
  In v r -> v <= fold_left Rmax r x.
Proof.
  revert x. induction r as [|a r IH]; intros x Hin; simpl; [contradiction|].
  destruct Hin as [->|Hin].
  - apply Rle_trans with (Rmax x v); [apply Rmax_r | apply fold_max_ge_init].
  - apply IH. exact Hin.
Qed.

Lemma fold_max_in (r : array1) (x : R) : In (fold_left Rmax r x) (x :: r).
Proof.
  revert x. induction r as [|a r IH]; intro x; simpl; [now left|].
  destruct (IH (Rmax x a)) as [H|H].
  - rewrite <- H. unfold Rmax. destruct (Rle_dec x a); [right; now left | now left].
  - right. right. exact H.
Qed.

Lemma np_max_ge (a : array1) (m v : R) :
  np_max a = Ok m -> In v a -> v <= m.
Proof.
  destruct a as [|x r]; [discriminate|]. simpl.
  intros H Hin. apply Ok_inj in H. subst m.
  destruct Hin as [->|Hin]; [apply fold_max_ge_init | apply fold_max_ge, Hin].
Qed.

Lemma np_max_in (a : array1) (m : R) : np_max a = Ok m -> In m a.
Proof.
  destruct a as [|x r]; [discriminate|]. simpl.
  intro H. apply Ok_inj in H. subst m. apply fold_max_in.
Qed.

Lemma np_max_ok (a : array1) : a <> [] -> exists m, np_max a = Ok m.
Proof. destruct a; [contradiction|]. intros _. eexists. reflexivity. Qed.

Lemma np_min_ok (a : array1) : a <> [] -> exists m, np_min a = Ok m.
Proof. destruct a; [contradiction|]. intros _. eexists. reflexivity. Qed.

(** On a strictly increasing array the maximum is the last entry. *)
Lemma np_max_last (a : array1) :
  strictly_increasing a -> a <> [] ->
  np_max a = Ok (nth (length a - 1) a 0).
Proof.
  intros Ha Hne.
  destruct (np_max_ok a Hne) as [m Hm]. rewrite Hm. f_equal.
  assert (Hlen : (0 < length a)%nat) by (destruct a; [contradiction|simpl; lia]).
  pose proof (np_max_in _ _ Hm) as Hin.
  apply (In_nth _ _ 0) in Hin. destruct Hin as (k & Hk & Hnth).
  assert (Hlast : nth (length a - 1) a 0 <= m).
  { apply (np_max_ge _ _ _ Hm). apply nth_In. lia. }
  destruct (Nat.eq_dec k (length a - 1)) as [->|Hne']; [symmetry; exact Hnth|].
  pose proof (Ha k (length a - 1)%nat ltac:(lia)). lra.
Qed.

(** ** searchsorted *)

Lemma searchsorted_le_length (x : array1) (v : R) :
  (searchsorted x v <= length x)%nat.
Proof.
  induction x as [|a x IH]; simpl; [lia|].
  destruct (Rlt_dec a v); simpl; lia.
Qed.

Lemma searchsorted_below (x : array1) (v : R) (i : nat) :
  (i < searchsorted x v)%nat -> nth i x 0 < v.
Proof.
  revert i. induction x as [|a x IH]; intros i Hi; simpl in Hi; [lia|].
  destruct (Rlt_dec a v) as [Hav|Hav]; [|lia].
  destruct i as [|i]; [exact Hav|]. simpl. apply IH. lia.
Qed.

Lemma searchsorted_at (x : array1) (v : R) :
  (searchsorted x v < length x)%nat -> v <= nth (searchsorted x v) x 0.
Proof.
  induction x as [|a x IH]; simpl; [lia|].
  destruct (Rlt_dec a v) as [Hav|Hav]; intro H.
  - apply IH. lia.
  - lra.
Qed.

(** ** Piecewise-linear interpolation *)

(** The value of the interpolant on the segment [j - 1, j]. *)
Lemma call_linear_segment (x y : array1) (v : R) (j : nat) :
  strictly_increasing x -> (1 <= j < length x)%nat ->
  nth (j - 1) x 0 <= v <= nth j x 0 ->
  call_linear x y v =
  (nth j y 0 - nth (j - 1) y 0) / (nth j x 0 - nth (j - 1) x 0)
  * (v - nth (j - 1) x 0) + nth (j - 1) y 0.
Proof.
  intros Hx Hj [Hlo Hhi].
  set (k := searchsorted x v).
  assert (Hk1 : (k <= j)%nat).
  { destruct (le_lt_dec k j) as [H|H]; [exact H|].
    pose proof (searchsorted_below x v j H). lra. }
  assert (Hk2 : (j - 1 <= k)%nat).
  { destruct (le_lt_dec (j - 1) k) as [H|H]; [exact H|].
    pose proof (searchsorted_at x v ltac:(fold k; lia)) as Hat. fold k in Hat.
    pose proof (Hx k (j - 1)%nat ltac:(lia)). lra. }
  unfold call_linear. fold k.
  destruct (Nat.eq_dec k j) as [Hkj|Hkj].
  - replace (clip k 1 (length x - 1)) with j by (unfold clip; lia).
    reflexivity.
  - assert (Hk : k = (j - 1)%nat) by lia.
    pose proof (searchsorted_at x v ltac:(fold k; lia)) as Hat. fold k in Hat.
    assert (Hv : v = nth (j - 1) x 0) by (rewrite Hk in Hat; lra).
    destruct (Nat.eq_dec j 1) as [Hj1|Hj1].
    + replace (clip k 1 (length x - 1)) with j by (unfold clip; lia).
      reflexivity.
    + replace (clip k 1 (length x - 1)) with (j - 1)%nat by (unfold clip; lia).
      pose proof (Hx (j - 1 - 1)%nat (j - 1)%nat ltac:(lia)) as Hstep.
      pose proof (Hx (j - 1)%nat j ltac:(lia)) as Hstep'.
      rewrite Hv. field. lra.
Qed.

(** Every abscissa within the range of [x] lies on some segment. *)
Lemma segment_exists (x : array1) (v : R) :
  strictly_increasing x -> (2 <= length x)%nat ->
  nth 0 x 0 <= v <= nth (length x - 1) x 0 ->
  exists j, (1 <= j < length x)%nat /\ nth (j - 1) x 0 <= v <= nth j x 0.
Proof.
  intros Hx Hn [Hlo Hhi].
  set (k := searchsorted x v).
  pose proof (searchsorted_le_length x v) as Hk. fold k in Hk.
  destruct (Nat.eq_dec k (length x)) as [Hkn|Hkn].
  - pose proof (searchsorted_below x v (length x - 1)%nat ltac:(fold k; lia)). lra.
  - pose proof (searchsorted_at x v ltac:(fold k; lia)) as Hat. fold k in Hat.
    destruct (Nat.eq_dec k 0) as [Hk0|Hk0].
    + exists 1%nat. rewrite Hk0 in Hat. simpl Nat.sub.
      split; [lia|]. split; [exact Hlo|].
      pose proof (Hx 0%nat 1%nat ltac:(lia)). lra.
    + exists k. split; [lia|]. split; [|exact Hat].
      left. apply searchsorted_below. fold k. lia.
Qed.

Lemma segment_value_bounds (x0 x1 y0 y1 v : R) :
  x0 < x1 -> y0 <= y1 -> x0 <= v <= x1 ->
  y0 <= (y1 - y0) / (x1 - x0) * (v - x0) + y0 <= y1.
Proof.
  intros Hx Hy [Hlo Hhi].
  assert (Hinv : 0 < / (x1 - x0)) by (apply Rinv_0_lt_compat; lra).
  set (theta := (v - x0) * / (x1 - x0)).
  assert (H0 : 0 <= theta) by (apply Rmult_le_pos; lra).
  assert (H1 : theta <= 1).
  { apply Rmult_le_reg_r with (x1 - x0); [lra|].
    unfold theta. rewrite Rmult_assoc, Rinv_l; lra. }
  replace ((y1 - y0) / (x1 - x0) * (v - x0) + y0)
    with (y0 + (y1 - y0) * theta) by (unfold theta, Rdiv; ring).
  nra.
Qed.

Lemma segment_value_monotone (x0 x1 y0 y1 v w : R) :
  x0 < x1 -> y0 <= y1 -> v <= w ->
  (y1 - y0) / (x1 - x0) * (v - x0) + y0 <=
  (y1 - y0) / (x1 - x0) * (w - x0) + y0.
Proof.
  intros Hx Hy Hvw.
  assert (Hinv : 0 < / (x1 - x0)) by (apply Rinv_0_lt_compat; lra).
  assert (Hs : 0 <= (y1 - y0) / (x1 - x0)) by (apply Rmult_le_pos; lra).
  nra.
Qed.

Lemma call_linear_bounds (x y : array1) (v : R) (j : nat) :
  strictly_increasing x -> non_decreasing y -> length x = length y ->
  (1 <= j < length x)%nat -> nth (j - 1) x 0 <= v <= nth j x 0 ->
  nth (j - 1) y 0 <= call_linear x y v <= nth j y 0.
Proof.
  intros Hx Hy Hlen Hj Hv.
  rewrite (call_linear_segment x y v j Hx Hj Hv).
  apply segment_value_bounds.
  - apply Hx. lia.
  - apply Hy. lia.
  - exact Hv.
Qed.

Lemma call_linear_monotone (x y : array1) (v w : R) :
  strictly_increasing x -> non_decreasing y -> length x = length y ->
  (2 <= length x)%nat ->
  nth 0 x 0 <= v -> v <= w -> w <= nth (length x - 1) x 0 ->
  call_linear x y v <= call_linear x y w.
Proof.
  intros Hx Hy Hlen Hn Hlo Hvw Hhi.
  destruct (segment_exists x v Hx Hn ltac:(lra)) as (j & Hj & Hjv).
  destruct (segment_exists x w Hx Hn ltac:(lra)) as (k & Hk & Hkw).
  destruct (Nat.lt_trichotomy j k) as [Hlt|[Heq|Hgt]].
  - pose proof (call_linear_bounds x y v j Hx Hy Hlen Hj Hjv) as [_ H1].
    pose proof (call_linear_bounds x y w k Hx Hy Hlen Hk Hkw) as [H2 _].
    pose proof (Hy j (k - 1)%nat ltac:(lia)). lra.
  - subst k.
    rewrite (call_linear_segment x y v j Hx Hj Hjv).
    rewrite (call_linear_segment x y w j Hx Hj Hkw).
    apply segment_value_monotone; [apply Hx; lia | apply Hy; lia | exact Hvw].
  - assert (Hxx : nth k x 0 <= nth (j - 1) x 0).
    { destruct (Nat.eq_dec k (j - 1)) as [->|Hne]; [apply Rle_refl|].
      left. apply Hx. lia. }
    assert (v = w) by lra. subst w. apply Rle_refl.
Qed.

(** Interpolating [y] against [x] and then [x] against [y] gives back the
    abscissa. *)
Lemma call_linear_round_trip (x y : array1) (v : R) :
  strictly_increasing x -> strictly_increasing y -> length x = length y ->
  (2 <= length x)%nat -> nth 0 x 0 <= v <= nth (length x - 1) x 0 ->
  call_linear y x (call_linear x y v) = v.
Proof.
  intros Hx Hy Hlen Hn Hv.
  destruct (segment_exists x v Hx Hn Hv) as (j & Hj & Hjv).
  pose proof (call_linear_bounds x y v j Hx
                (strictly_increasing_non_decreasing y Hy) Hlen Hj Hjv) as Hu.
  rewrite (call_linear_segment y x (call_linear x y v) j Hy ltac:(lia) Hu).
  rewrite (call_linear_segment x y v j Hx Hj Hjv).
  pose proof (Hx (j - 1)%nat j ltac:(lia)).
  pose proof (Hy (j - 1)%nat j ltac:(lia)).
  field. lra.
Qed.

(** ** The sort inside interp1d *)

Lemma insert_by_key_In (p z : R * R) (l : list (R * R)) :
  In z (insert_by_key p l) <-> z = p \/ In z l.
Proof.
  induction l as [|q l IH]; simpl.
  - intuition.
  - destruct (Rlt_dec (fst q) (fst p)); simpl; rewrite ?IH; intuition.
Qed.

Lemma sort_by_key_In (z : R * R) (l : list (R * R)) :
  In z (sort_by_key l) <-> In z l.
Proof.
  induction l as [|p l IH]; simpl; [tauto|].
  rewrite insert_by_key_In, IH. intuition.
Qed.

Lemma insert_by_key_sorted (p : R * R) (l : list (R * R)) :
  StronglySorted key_le l -> StronglySorted key_le (insert_by_key p l).
Proof.
  induction l as [|q l IH]; intro Hs; simpl.
  - constructor; constructor.
  - inversion Hs as [|? ? Hl Hq]; subst.
    destruct (Rlt_dec (fst q) (fst p)) as [Hlt|Hge].
    + constructor; [apply IH, Hl|].
      apply Forall_forall. intros z Hz. apply insert_by_key_In in Hz.
      destruct Hz as [->|Hz]; [unfold key_le; lra|].
      rewrite Forall_forall in Hq. apply Hq, Hz.
    + constructor; [exact Hs|].
      constructor; [unfold key_le; lra|].
      rewrite Forall_forall in Hq |- *. intros z Hz.
      specialize (Hq z Hz). unfold key_le in *. lra.
Qed.

Lemma sort_by_key_sorted (l : list (R * R)) :
  StronglySorted key_le (sort_by_key l).
Proof.
  induction l as [|p l IH]; simpl; [constructor|].
  apply insert_by_key_sorted, IH.
Qed.

Lemma sorted_head_le (l : list (R * R)) (z d : R * R) :
  StronglySorted key_le l -> In z l -> key_le (hd d l) z.
Proof.
  intros Hs Hz. destruct l as [|q l]; [contradiction|].
  inversion Hs as [|? ? Hl Hq]; subst. simpl.
  destruct Hz as [->|Hz]; [unfold key_le; lra|].
  rewrite Forall_forall in Hq. apply Hq, Hz.
Qed.

Lemma sorted_last_ge (l : list (R * R)) (z d : R * R) :
  StronglySorted key_le l -> In z l -> key_le z (last l d).
Proof.
  revert z. induction l as [|q l IH]; intros z Hs Hz; [contradiction|].
  inversion Hs as [|? ? Hl Hq]; subst.
  destruct l as [|q' l'].
  - destruct Hz as [->|[]]. simpl. unfold key_le; lra.
  - change (last (q :: q' :: l') d) with (last (q' :: l') d).
    destruct Hz as [->|Hz]; [|apply IH; assumption].
    rewrite Forall_forall in Hq.
    assert (key_le z q') by (apply Hq; now left).
    assert (key_le q' (last (q' :: l') d)) by (apply IH; [exact Hl | now left]).
    unfold key_le in *. lra.
Qed.

(** An ascending array is left as it is. *)
Lemma sort_by_key_ascending (l : list (R * R)) :
  ascending (map fst l) -> sort_by_key l = l.
Proof.
  induction l as [|p [|q l] IH]; intro Ha; try reflexivity.
  destruct Ha as [Hpq Ha].
  change (sort_by_key (p :: q :: l)) with (insert_by_key p (sort_by_key (q :: l))).
  rewrite (IH Ha). simpl.
  destruct (Rlt_dec (fst q) (fst p)); [lra|reflexivity].
Qed.

Lemma map_fst_combine (a b : array1) :
  length a = length b -> map fst (combine a b) = a.
Proof.
  revert b. induction a as [|x a IH]; intros [|y b] H; try discriminate;
    [reflexivity|]. simpl. f_equal. apply IH. simpl in H. lia.
Qed.

Lemma map_snd_combine (a b : array1) :
  length a = length b -> map snd (combine a b) = b.
Proof.
  revert b. induction a as [|x a IH]; intros [|y b] H; try discriminate;
    [reflexivity|]. simpl. f_equal. apply IH. simpl in H. lia.
Qed.

Lemma In_combine_fst (a b : array1) (x : R) :
  length a = length b -> In x a -> exists y, In (x, y) (combine a b).
Proof.
  revert b. induction a as [|x' a IH]; intros [|y b] H Hin;
    try discriminate; [contradiction|].
  destruct Hin as [->|Hin].
  - exists y. now left.
  - destruct (IH b ltac:(simpl in H; lia) Hin) as [y' Hy']. exists y'. now right.
Qed.

Lemma hd_map_fst (l : list (R * R)) : hd 0 (map fst l) = fst (hd (0, 0) l).
Proof. destruct l; reflexivity. Qed.

Lemma last_map_fst (l : list (R * R)) : last (map fst l) 0 = fst (last l (0, 0)).
Proof.
  induction l as [|p [|q l] IH]; try reflexivity.
  change (last (map fst (q :: l)) 0 = fst (last (q :: l) (0, 0))). exact IH.
Qed.

(** ** interp1d *)

Lemma hd_nth (a : array1) : hd 0 a = nth 0 a 0.
Proof. destruct a; reflexivity. Qed.

Lemma last_nth (a : array1) : last a 0 = nth (length a - 1) a 0.
Proof.
  induction a as [|x [|y a] IH]; try reflexivity.
  change (last (y :: a) 0 = nth (length (y :: a) - 1) (y :: a) 0) in IH.
  change (last (x :: y :: a) 0) with (last (y :: a) 0). rewrite IH.
  simpl. rewrite Nat.sub_0_r. reflexivity.
Qed.

Lemma existsb_false {A : Type} (p : A -> bool) (l : list A) :
  (forall v, In v l -> p v = false) -> existsb p l = false.
Proof.
  intro H. destruct (existsb p l) eqn:E; [|reflexivity].
  apply existsb_exists in E. destruct E as (v & Hin & Hp).
  rewrite (H v Hin) in Hp. discriminate.
Qed.

Lemma length_guard (x y : array1) :
  length x = length y -> x <> [] ->
  (negb (length x =? length y)%nat || (length x =? 0)%nat)%bool = false.
Proof.
  intros Hlen Hne. rewrite Hlen, Nat.eqb_refl. simpl.
  apply Nat.eqb_neq. rewrite <- Hlen. destruct x; [contradiction|discriminate].
Qed.

(** [interp1d] accepts every abscissa that lies between two entries of [x],
    whatever the order of [x]. *)
Lemma interp1d_ok (x y x_new : array1) :
  length x = length y -> x <> [] ->
  (forall v, In v x_new -> exists a b, In a x /\ In b x /\ a <= v <= b) ->
  exists r, interp1d x y x_new = Ok r /\ length r = length x_new.
Proof.
  intros Hlen Hne Hrange. unfold interp1d.
  rewrite (length_guard x y Hlen Hne).
  set (sorted_pairs := sort_by_key (combine x y)).
  pose proof (sort_by_key_sorted (combine x y)) as Hs. fold sorted_pairs in Hs.
  assert (Hin : forall a, In a x -> exists b, In (a, b) sorted_pairs).
  { intros a Ha. destruct (In_combine_fst x y a Hlen Ha) as [b Hb].
    exists b. apply sort_by_key_In. exact Hb. }
  rewrite existsb_false, existsb_false.
  - simpl. eexists. split; [reflexivity|]. apply length_map.
  - intros v Hv. apply Rltb_false.
    destruct (Hrange v Hv) as (a & b & Ha & Hb & Hab).
    destruct (Hin b Hb) as [b' Hb'].
    pose proof (sorted_last_ge _ _ (0, 0) Hs Hb') as Hle.
    rewrite last_map_fst. unfold key_le in Hle. simpl in Hle. lra.
  - intros v Hv. apply Rltb_false.
    destruct (Hrange v Hv) as (a & b & Ha & Hb & Hab).
    destruct (Hin a Ha) as [a' Ha'].
    pose proof (sorted_head_le _ _ (0, 0) Hs Ha') as Hle.
    rewrite hd_map_fst. unfold key_le in Hle. simpl in Hle. lra.
Qed.

Lemma count_le_le_length (arr : array1) (key : R) :
  (count_le arr key <= length arr)%nat.
Proof.
  induction arr as [|a arr IH]; simpl; [lia|].
  destruct (Rle_dec a key); simpl; lia.
Qed.

Lemma count_le_below (arr : array1) (key : R) (i : nat) :
  (i < count_le arr key)%nat -> nth i arr 0 <= key.
Proof.
  revert i. induction arr as [|a arr IH]; intros i Hi; simpl in Hi; [lia|].
  destruct (Rle_dec a key) as [Ha|Ha]; [|lia].
  destruct i as [|i]; [exact Ha|]. simpl. apply IH. lia.
Qed.

Lemma count_le_at (arr : array1) (key : R) :
  (count_le arr key < length arr)%nat -> key < nth (count_le arr key) arr 0.
Proof.
  induction arr as [|a arr IH]; simpl; [lia|].
  destruct (Rle_dec a key) as [Ha|Ha]; intro H.
  - apply IH. lia.
  - lra.
Qed.

Lemma count_le_positive (arr : array1) (key : R) :
  arr <> [] -> nth 0 arr 0 <= key -> (1 <= count_le arr key)%nat.
Proof.
  destruct arr as [|a arr]; [contradiction|]. simpl. intros _ H.
  destruct (Rle_dec a key); [lia|contradiction].
Qed.

(** On a strictly increasing [xp] and within its range, [numpy.interp] and
    [_call_linear] give the same value. *)
Lemma np_interp_call_linear (x y : array1) (v : R) :
  strictly_increasing x -> x <> [] ->
  nth 0 x 0 <= v <= nth (length x - 1) x 0 ->
  np_interp x y v = call_linear x y v.
Proof.
  intros Hx Hne [Hlo Hhi].
  unfold np_interp, binary_search_with_guess.
  replace (Rltb (last x 0) v) with false
    by (symmetry; apply Rltb_false; rewrite last_nth; exact Hhi).
  replace (Rltb v (hd 0 x)) with false
    by (symmetry; apply Rltb_false; rewrite hd_nth; exact Hlo).
  set (c := count_le x v).
  pose proof (count_le_positive x v Hne Hlo) as Hc1. fold c in Hc1.
  pose proof (count_le_le_length x v) as Hc2. fold c in Hc2.
  pose proof (count_le_below x v (c - 1)%nat ltac:(fold c; lia)) as Hbelow.
  replace (Z.of_nat c - 1 =? -1)%Z with false by (symmetry; apply Z.eqb_neq; lia).
  replace (Z.of_nat c - 1 =? Z.of_nat (length x))%Z with false
    by (symmetry; apply Z.eqb_neq; lia).
  replace (Z.to_nat (Z.of_nat c - 1)) with (c - 1)%nat by lia.
  destruct (Nat.eq_dec c (length x)) as [Hcl|Hcl].
  - replace (Z.of_nat c - 1 =? Z.of_nat (length x) - 1)%Z with true
      by (symmetry; apply Z.eqb_eq; lia).
    assert (Hv : v = nth (length x - 1) x 0) by (rewrite Hcl in Hbelow; lra).
    rewrite Hcl.
    destruct (le_lt_dec 2 (length x)) as [Hlen|Hlen].
    + rewrite (call_linear_segment x y v (length x - 1) Hx ltac:(lia)).
      * pose proof (Hx (length x - 1 - 1)%nat (length x - 1)%nat ltac:(lia)).
        rewrite Hv. field. lra.
      * pose proof (Hx (length x - 1 - 1)%nat (length x - 1)%nat ltac:(lia)).
        lra.
    + destruct x as [|a [|b x]]; [contradiction| |simpl in Hlen; lia].
      simpl in Hv. subst v. unfold call_linear, clip. simpl.
      destruct (Rlt_dec a a); simpl; unfold Rdiv; ring.
  - replace (Z.of_nat c - 1 =? Z.of_nat (length x) - 1)%Z with false
      by (symmetry; apply Z.eqb_neq; lia).
    pose proof (count_le_at x v ltac:(fold c; lia)) as Hat. fold c in Hat.
    replace (c - 1 + 1)%nat with c by lia.
    rewrite (call_linear_segment x y v c Hx ltac:(lia))
      by (split; [exact Hbelow | lra]).
    destruct (Req_dec_T (nth (c - 1) x 0) v) as [Heq|Hneq]; [|reflexivity].
    rewrite <- Heq. unfold Rdiv. ring.
Qed.

(** On a strictly increasing [x] the interpolator is [call_linear] on the
    arrays as given. *)
Lemma interp1d_ascending (x y x_new : array1) :
  strictly_increasing x -> length x = length y -> x <> [] ->
  (forall v, In v x_new -> nth 0 x 0 <= v <= nth (length x - 1) x 0) ->
  interp1d x y x_new = Ok (map (call_linear x y) x_new).
Proof.
  intros Hx Hlen Hne Hrange. unfold interp1d.
  rewrite (length_guard x y Hlen Hne).
  rewrite sort_by_key_ascending
    by (rewrite map_fst_combine by exact Hlen;
        apply strictly_increasing_ascending, Hx).
  rewrite map_fst_combine, map_snd_combine by exact Hlen.
  rewrite existsb_false, existsb_false.
  - simpl. f_equal. apply map_ext_in. intros v Hv.
    apply np_interp_call_linear; [exact Hx | exact Hne | exact (Hrange v Hv)].
  - intros v Hv. apply Rltb_false. rewrite last_nth. apply (Hrange v Hv).
  - intros v Hv. apply Rltb_false. rewrite hd_nth. apply (Hrange v Hv).
Qed.

(** ** The resampling step *)

Section Resampling.

Variables (curv_int uu : array1) (npoints : Z).

Hypothesis curv_int_increasing : strictly_increasing curv_int.
Hypothesis curv_int_first : nth 0 curv_int 0 = 0.
Hypothesis uu_increasing : strictly_increasing uu.
Hypothesis same_length : length curv_int = length uu.
Hypothesis two_points : (2 <= length uu)%nat.
Hypothesis npoints_nonneg : (0 <= npoints)%Z.

Let total : R := nth (length curv_int - 1) curv_int 0.

Lemma curv_int_nonempty : curv_int <> [].
Proof using same_length two_points.
  intro H. rewrite H in same_length. simpl in same_length. lia.
Qed.

Lemma total_positive : 0 < total.
Proof using curv_int_increasing curv_int_first same_length two_points.
  pose proof (curv_int_increasing 0%nat (length curv_int - 1)%nat
                ltac:(lia)) as H.
  rewrite curv_int_first in H. exact H.
Qed.

(** The targets and the parameters the step computes. *)
Lemma resample_unfold :
  exists targets,
    linspace 0 total npoints = Ok targets /\
    resample curv_int uu npoints = Ok (map (call_linear curv_int uu) targets) /\
    (forall v, In v targets -> 0 <= v <= total).
Proof using curv_int_increasing curv_int_first same_length two_points
            npoints_nonneg.
  destruct (linspace_ok 0 total npoints npoints_nonneg) as [targets Ht].
  assert (Hrange : forall v, In v targets -> 0 <= v <= total).
  { intros v Hv. apply (In_nth _ _ 0) in Hv. destruct Hv as (i & Hi & <-).
    apply (linspace_nth_bounds 0 total npoints targets i);
      [left; apply total_positive | exact Ht | exact Hi]. }
  exists targets. split; [exact Ht|]. split; [|exact Hrange].
  unfold resample.
  rewrite (np_max_last curv_int curv_int_increasing curv_int_nonempty).
  simpl exc_bind. fold total. rewrite Ht. simpl exc_bind.
  apply interp1d_ascending;
    [exact curv_int_increasing | exact same_length | exact curv_int_nonempty|].
  intros v Hv. rewrite curv_int_first. apply Hrange, Hv.
Qed.

Lemma resampled_value_bounds (v : R) :
  0 <= v <= total ->
  nth 0 uu 0 <= call_linear curv_int uu v <= nth (length uu - 1) uu 0.
Proof using curv_int_increasing curv_int_first uu_increasing same_length
            two_points.
  intro Hv.
  pose proof (strictly_increasing_non_decreasing uu uu_increasing) as Hnd.
  destruct (segment_exists curv_int v curv_int_increasing ltac:(lia)
              ltac:(rewrite curv_int_first; exact Hv)) as (j & Hj & Hjv).
  pose proof (call_linear_bounds curv_int uu v j curv_int_increasing Hnd
                same_length Hj Hjv) as [Hlo Hhi].
  pose proof (Hnd 0%nat (j - 1)%nat ltac:(lia)).
  pose proof (Hnd j (length uu - 1)%nat ltac:(lia)).
  lra.
Qed.

Lemma resampled_first : call_linear curv_int uu 0 = nth 0 uu 0.
Proof using curv_int_increasing curv_int_first same_length two_points.
  pose proof (curv_int_increasing 0%nat 1%nat ltac:(lia)) as Hstep.
  rewrite (call_linear_segment curv_int uu 0 1 curv_int_increasing ltac:(lia));
    simpl Nat.sub.
  - rewrite curv_int_first. unfold Rdiv. ring.
  - rewrite curv_int_first in *. lra.
Qed.

Lemma resampled_last :
  call_linear curv_int uu total = nth (length uu - 1) uu 0.
Proof using curv_int_increasing same_length two_points.
  pose proof (curv_int_increasing (length curv_int - 1 - 1)%nat
                (length curv_int - 1)%nat ltac:(lia)) as Hstep.
  rewrite (call_linear_segment curv_int uu total (length curv_int - 1)
             curv_int_increasing ltac:(lia)).
  - rewrite same_length. unfold total. rewrite same_length in *. field. lra.
  - unfold total. lra.
Qed.

End Resampling.

(** ** The curvature field: claims C2 and C8 *)

(** C2.  At every parameter [u] of the grid where the velocity is not zero
    (where the formula means something) the CurvatureSample entry the code
    computes is [|x'.y'' - x''.y'| / (x'^2 + y'^2)^1.5 + smoother], with
    [x', y', x'', y''] the first and second derivatives of the fitted spline
    at [u]. *)
Theorem curvature_sample_formula {fitpack : SplineLibrary}
    (t : tck) (uu : array1) (smoother : R) :
  (2 <= degree t)%Z -> uu <> [] ->
  exists curv,
    curvature_sample t uu smoother = Ok curv /\
    length curv = length uu /\
    forall i, (i < length uu)%nat ->
      let u := nth i uu 0 in
      ~ (fst (splev_at t 1 u) = 0 /\ snd (splev_at t 1 u) = 0) ->
      nth i curv 0 =
      curvature_formula (fst (splev_at t 1 u)) (snd (splev_at t 1 u))
                        (fst (splev_at t 2 u)) (snd (splev_at t 2 u)) smoother.
Proof.
  intros Hk Hne.
  destruct (curvature_sample_ok t uu smoother Hk Hne) as (curv & Hc & Hlen).
  exists curv. split; [exact Hc|]. split; [exact Hlen|].
  intros i Hi u Hv. rewrite (curvature_sample_inv _ _ _ _ Hc).
  rewrite curv_array_nth; rewrite ?length_map; try reflexivity; [|exact Hi].
  rewrite !(nth_map_lt _ uu 0 i Hi). apply curv_at_formula. exact Hv.
Qed.

Lemma curvature_sample_formula_witness :
  exists curv,
    @curvature_sample parabola_library tt [0; 1] 10 = Ok curv /\
    nth 1 curv 0 = curvature_formula 1 (2 * 1) 0 2 10.
Proof.
  destruct (@curvature_sample_formula parabola_library tt [0; 1] 10)
    as (curv & Hc & _ & Hf).
  - simpl. lia.
  - discriminate.
  - exists curv. split; [exact Hc|].
    apply (Hf 1%nat); [simpl; lia|].
    simpl. intros [H _]. lra.
Defined.

(** The exponent of the curvature is 1.5: the square of the divisor is the
    cube of the squared speed. *)
Lemma curv_divisor_squared (dx dy : R) :
  curv_divisor dx dy * curv_divisor dx dy = (dx * dx + dy * dy) ^ 3.
Proof.
  unfold curv_divisor.
  assert (H0 : 0 <= dx * dx + dy * dy) by nra.
  rewrite (pow_1_5_sqrt _ H0).
  set (b := dx * dx + dy * dy) in *.
  replace (b * sqrt b * (b * sqrt b)) with (b * b * (sqrt b * sqrt b)) by ring.
  rewrite (sqrt_sqrt b H0). ring.
Qed.

(** C8.  The divisor of the curvature is non-zero exactly where the velocity
    [(x', y')] is not [(0, 0)]; there the entry is strictly positive as soon
    as [smoother > 0].  The division itself is unguarded, so the divisor
    vanishes on the zero-velocity input and on no other. *)
Theorem curvature_defined_off_zero_velocity (dx dy ddx ddy smoother : R) :
  (curv_divisor dx dy <> 0 <-> ~ (dx = 0 /\ dy = 0)) /\
  (~ (dx = 0 /\ dy = 0) -> 0 < smoother ->
   0 < curv_at dx dy ddx ddy smoother) /\
  curv_at dx dy ddx ddy smoother =
  Rabs (ddx * dy - dx * ddy) / curv_divisor dx dy + smoother.
Proof.
  split; [|split].
  - split.
    + intros Hd [Hx Hy]. apply Hd. subst. unfold curv_divisor.
      replace (0 * 0 + 0 * 0) with 0 by ring. apply pow_1_5_zero.
    + intro Hv. pose proof (curv_divisor_pos dx dy Hv). lra.
  - apply curv_at_pos.
  - reflexivity.
Qed.

Lemma curvature_defined_off_zero_velocity_witness :
  curv_divisor 1 0 <> 0 /\ 0 < curv_at 1 0 0 1 10.
Proof.
  pose proof (curvature_defined_off_zero_velocity 1 0 0 1 10) as (Hd & Hp & _).
  assert (Hv : ~ (1 = 0 /\ 0 = 0)) by (intros [H _]; lra).
  split.
  - apply Hd. exact Hv.
  - apply Hp; [exact Hv | lra].
Defined.

(** ** The cumulative integral: claim C3 *)

(** C3.  Over a ParameterGrid of two points or more, the running trapezoidal
    integral of a strictly positive CurvatureSample starts at exactly 0 and
    is strictly increasing; and the sample the code computes is strictly
    positive when [smoother > 0], wherever the velocity does not vanish. *)
Theorem cumtrapz_zero_first_strictly_increasing
    (uu curv : array1) :
  is_parameter_grid uu -> length curv = length uu ->
  Forall (fun c => 0 < c) curv ->
  (exists curv_int,
     cumtrapz curv uu = Ok curv_int /\
     length curv_int = length uu /\
     nth 0 curv_int 0 = 0 /\
     strictly_increasing curv_int) /\
  (forall dx dy ddx ddy smoother,
     regular dx dy -> 0 < smoother ->
     Forall (fun c => 0 < c) (curv_array dx dy ddx ddy smoother)).
Proof.
  intros Hgrid Hlen Hpos. split.
  - apply cumtrapz_ascending; [exact Hlen| | |exact Hpos].
    + pose proof (parameter_grid_length uu Hgrid) as Htwo.
      intro Hnil. rewrite Hnil in Hlen. simpl in Hlen. lia.
    + apply strictly_increasing_ascending,
        parameter_grid_strictly_increasing, Hgrid.
  - intros. apply curv_array_positive; assumption.
Qed.

Lemma unit_grid : is_parameter_grid [INR 0 * ((1 - 0) / INR 1) + 0; 1].
Proof.
  exists 0, 1, 2%Z. split; [lra|]. split; [lia|]. reflexivity.
Qed.

Lemma cumtrapz_zero_first_strictly_increasing_witness :
  exists curv_int,
    cumtrapz [10; 12] [INR 0 * ((1 - 0) / INR 1) + 0; 1] = Ok curv_int /\
    nth 0 curv_int 0 = 0 /\ strictly_increasing curv_int.
Proof.
  destruct (cumtrapz_zero_first_strictly_increasing
              [INR 0 * ((1 - 0) / INR 1) + 0; 1] [10; 12])
    as [(ci & Hci & _ & H0 & Hinc) _].
  - exact unit_grid.
  - reflexivity.
  - repeat constructor; lra.
  - exists ci. split; [exact Hci|]. split; [exact H0 | exact Hinc].
Defined.

(** ** The resampling step: claims C4 and C5 *)

Lemma nth_map_call_linear (x y targets : array1) (i : nat) :
  (i < length targets)%nat ->
  nth i (map (call_linear x y) targets) 0 = call_linear x y (nth i targets 0).
Proof. intro Hi. apply nth_map_lt. exact Hi. Qed.

(** What the step returns, entry by entry. *)
Lemma resample_entries (curv_int uu : array1) (npoints : Z) :
  strictly_increasing curv_int -> nth 0 curv_int 0 = 0 ->
  strictly_increasing uu -> length curv_int = length uu ->
  (2 <= length uu)%nat -> (0 <= npoints)%Z ->
  exists targets u_new,
    linspace 0 (nth (length curv_int - 1) curv_int 0) npoints = Ok targets /\
    resample curv_int uu npoints = Ok u_new /\
    length u_new = length targets /\
    Z.of_nat (length targets) = npoints /\
    (forall v, In v targets ->
       0 <= v <= nth (length curv_int - 1) curv_int 0) /\
    (forall i, (i < length targets)%nat ->
       nth i u_new 0 = call_linear curv_int uu (nth i targets 0)).
Proof.
  intros Hci H0 Huu Hlen Hn Hnp.
  destruct (resample_unfold curv_int uu npoints Hci H0 Hlen Hn Hnp)
    as (targets & Ht & Hr & Hrange).
  exists targets, (map (call_linear curv_int uu) targets).
  split; [exact Ht|]. split; [exact Hr|]. split; [apply length_map|].
  split; [exact (linspace_length _ _ _ _ Ht)|]. split; [exact Hrange|].
  intros i Hi. apply nth_map_call_linear, Hi.
Qed.

Lemma resample_properties (curv_int uu : array1) (npoints : Z) :
  strictly_increasing curv_int -> nth 0 curv_int 0 = 0 ->
  strictly_increasing uu -> length curv_int = length uu ->
  (2 <= length uu)%nat -> (0 <= npoints)%Z ->
  exists u_new,
    resample curv_int uu npoints = Ok u_new /\
    Z.of_nat (length u_new) = npoints /\
    non_decreasing u_new /\
    (forall i, (i < length u_new)%nat ->
       nth 0 uu 0 <= nth i u_new 0 <= nth (length uu - 1) uu 0) /\
    ((1 <= npoints)%Z -> nth 0 u_new 0 = nth 0 uu 0) /\
    ((2 <= npoints)%Z ->
       nth (length u_new - 1) u_new 0 = nth (length uu - 1) uu 0).
Proof.
  intros Hci H0 Huu Hlen Hn Hnp.
  destruct (resample_entries curv_int uu npoints Hci H0 Huu Hlen Hn Hnp)
    as (targets & u_new & Ht & Hr & Hlu & Hlt & Hrange & Hnth).
  pose proof (total_positive curv_int uu Hci H0 Hlen Hn) as Htot.
  exists u_new. split; [exact Hr|]. split; [lia|].
  split; [|split; [|split]].
  - intros i j [Hij Hj]. rewrite !Hnth by lia.
    pose proof (linspace_non_decreasing 0 _ npoints targets (Rlt_le _ _ Htot) Ht)
      as Hnd.
    apply call_linear_monotone;
      [exact Hci | apply strictly_increasing_non_decreasing, Huu
       | exact Hlen | lia | | | ].
    + rewrite H0. apply Hrange, nth_In. lia.
    + apply Hnd. lia.
    + apply Hrange, nth_In. lia.
  - intros i Hi. rewrite Hnth by lia.
    apply resampled_value_bounds; try assumption.
    apply Hrange, nth_In. lia.
  - intro H1. rewrite Hnth by lia.
    rewrite (linspace_first _ _ _ _ H1 Ht).
    apply resampled_first; assumption.
  - intro H2. rewrite Hnth by lia. rewrite Hlu.
    rewrite (linspace_last _ _ _ _ H2 Ht).
    apply resampled_last; assumption.
Qed.

(** C4, as amended.  Given a strictly increasing CumulativeArray that starts
    at 0 over a strictly increasing ParameterGrid, the resampling step
    returns exactly [npoints] parameters, in non-decreasing order, all within
    [[u_min, u_max]]; the first is [u_min] when [npoints >= 1] and the last is
    [u_max] when [npoints >= 2]. *)
Theorem resample_sorted_bounded_spanning (curv_int uu : array1) (npoints : Z) :
  strictly_increasing curv_int -> nth 0 curv_int 0 = 0 ->
  strictly_increasing uu -> length curv_int = length uu ->
  (2 <= length uu)%nat -> (0 <= npoints)%Z ->
  let u_min := nth 0 uu 0 in
  let u_max := nth (length uu - 1) uu 0 in
  exists u_new,
    resample curv_int uu npoints = Ok u_new /\
    Z.of_nat (length u_new) = npoints /\
    non_decreasing u_new /\
    (forall i, (i < length u_new)%nat -> u_min <= nth i u_new 0 <= u_max) /\
    ((1 <= npoints)%Z -> nth 0 u_new 0 = u_min) /\
    ((2 <= npoints)%Z -> nth (length u_new - 1) u_new 0 = u_max).
Proof.
  intros Hci H0 Huu Hlen Hn Hnp u_min u_max.
  exact (resample_properties curv_int uu npoints Hci H0 Huu Hlen Hn Hnp).
Qed.

Lemma two_point_array_increasing (a b : R) :
  a < b -> strictly_increasing [a; b].
Proof.
  intro H. apply ascending_strictly_increasing. simpl. split; [exact H|exact I].
Qed.

Lemma resample_sorted_bounded_spanning_witness :
  exists u_new,
    resample [0; 5] [0; 1] 3 = Ok u_new /\
    Z.of_nat (length u_new) = 3%Z /\
    non_decreasing u_new /\
    nth 0 u_new 0 = 0 /\ nth (length u_new - 1) u_new 0 = 1.
Proof.
  destruct (resample_sorted_bounded_spanning [0; 5] [0; 1] 3)
    as (u_new & Hr & Hl & Hnd & _ & Hfirst & Hlast).
  - apply two_point_array_increasing. lra.
  - reflexivity.
  - apply two_point_array_increasing. lra.
  - reflexivity.
  - simpl. lia.
  - lia.
  - exists u_new. split; [exact Hr|]. split; [exact Hl|]. split; [exact Hnd|].
    split; [apply Hfirst; lia | apply Hlast; lia].
Defined.

(** C4 as first stated fails for [npoints = 1]: the only target is 0, so the
    only parameter returned is [u_min], and the last value is not [u_max]. *)
Lemma resample_single_point_is_u_min :
  strictly_increasing [0; 5] /\ strictly_increasing [0; 1] /\
  exists u_new,
    resample [0; 5] [0; 1] 1 = Ok u_new /\
    length u_new = 1%nat /\
    nth (length u_new - 1) u_new 0 = nth 0 [0; 1] 0 /\
    nth (length u_new - 1) u_new 0 <> nth (length [0; 1] - 1) [0; 1] 0.
Proof.
  assert (Hci : strictly_increasing [0; 5])
    by (apply two_point_array_increasing; lra).
  assert (Huu : strictly_increasing [0; 1])
    by (apply two_point_array_increasing; lra).
  split; [exact Hci|]. split; [exact Huu|].
  destruct (resample_properties [0; 5] [0; 1] 1 Hci eq_refl Huu eq_refl
              ltac:(simpl; lia) ltac:(lia))
    as (u_new & Hr & Hl & _ & _ & Hfirst & _).
  exists u_new. split; [exact Hr|].
  assert (Hlen : length u_new = 1%nat) by lia.
  split; [exact Hlen|]. rewrite Hlen. simpl Nat.sub.
  rewrite (Hfirst ltac:(lia)). simpl. split; [reflexivity|lra].
Qed.

(** C5.  Monotone-inversion round trip: the [npoints] evenly spaced targets
    over [[0, CumulativeArray.last]], mapped to parameters by the step and
    then through the piecewise-linear interpolant of CumulativeArray against
    the grid, come back unchanged. *)
Theorem resample_round_trip (curv_int uu : array1) (npoints : Z) :
  strictly_increasing curv_int -> nth 0 curv_int 0 = 0 ->
  strictly_increasing uu -> length curv_int = length uu ->
  (2 <= length uu)%nat -> (0 <= npoints)%Z ->
  exists targets u_new,
    linspace 0 (nth (length curv_int - 1) curv_int 0) npoints = Ok targets /\
    Z.of_nat (length targets) = npoints /\
    resample curv_int uu npoints = Ok u_new /\
    interp1d uu curv_int u_new = Ok targets.
Proof.
  intros Hci H0 Huu Hlen Hn Hnp.
  destruct (resample_unfold curv_int uu npoints Hci H0 Hlen Hn Hnp)
    as (targets & Ht & Hr & Hrange).
  exists targets, (map (call_linear curv_int uu) targets).
  split; [exact Ht|]. split; [exact (linspace_length _ _ _ _ Ht)|].
  split; [exact Hr|].
  rewrite interp1d_ascending.
  - rewrite map_map. apply f_equal.
    transitivity (map (fun v : R => v) targets); [|apply map_id].
    apply map_ext_in. intros v Hv.
    apply call_linear_round_trip; try assumption; [lia|].
    rewrite H0. apply Hrange, Hv.
  - exact Huu.
  - symmetry. exact Hlen.
  - intro H. rewrite H in Hn. simpl in Hn. lia.
  - intros u Hu. apply in_map_iff in Hu. destruct Hu as (v & <- & Hv).
    apply resampled_value_bounds; try assumption. apply Hrange, Hv.
Qed.

Lemma resample_round_trip_witness :
  exists targets u_new,
    resample [0; 5] [0; 1] 3 = Ok u_new /\
    interp1d [0; 1] [0; 5] u_new = Ok targets /\
    Z.of_nat (length targets) = 3%Z.
Proof.
  destruct (resample_round_trip [0; 5] [0; 1] 3)
    as (targets & u_new & _ & Hl & Hr & Hback).
  - apply two_point_array_increasing. lra.
  - reflexivity.
  - apply two_point_array_increasing. lra.
  - reflexivity.
  - simpl. lia.
  - lia.
  - exists targets, u_new. split; [exact Hr|]. split; [exact Hback | exact Hl].
Defined.

(** ** The whole pipeline: claim C1 *)

Lemma fine_discrete_space_ok (u : array1) :
  u <> [] ->
  exists uu, fine_discrete_space u = Ok uu /\ length uu = 1000%nat.
Proof.
  intro Hu. unfold fine_discrete_space.
  destruct (np_min_ok u Hu) as [lo ->]. destruct (np_max_ok u Hu) as [hi ->].
  simpl exc_bind.
  destruct (linspace_ok lo hi 1000 ltac:(lia)) as [uu Huu].
  exists uu. split; [exact Huu|].
  pose proof (linspace_length _ _ _ _ Huu). lia.
Qed.

(** The step succeeds on any cumulative array that contains 0, sorted or
    not: the targets lie between 0 and its maximum. *)
Lemma resample_ok (curv_int uu : array1) (npoints : Z) :
  length curv_int = length uu -> In 0 curv_int -> (0 <= npoints)%Z ->
  exists u_new,
    resample curv_int uu npoints = Ok u_new /\
    Z.of_nat (length u_new) = npoints.
Proof.
  intros Hlen H0 Hnp. unfold resample.
  assert (Hne : curv_int <> []) by (intro H; rewrite H in H0; contradiction).
  destruct (np_max_ok curv_int Hne) as [m Hm]. rewrite Hm. simpl exc_bind.
  pose proof (np_max_ge _ _ _ Hm H0) as Hm0.
  destruct (linspace_ok 0 m npoints Hnp) as [targets Ht]. rewrite Ht.
  simpl exc_bind.
  destruct (interp1d_ok curv_int uu targets Hlen Hne) as (u_new & Hu & Hl).
  - intros v Hv. exists 0, m. split; [exact H0|].
    split; [exact (np_max_in _ _ Hm)|].
    apply (In_nth _ _ 0) in Hv. destruct Hv as (i & Hi & <-).
    exact (linspace_nth_bounds 0 m npoints targets i Hm0 Ht Hi).
  - exists u_new. split; [exact Hu|].
    rewrite Hl. exact (linspace_length _ _ _ _ Ht).
Qed.

Lemma length_1000_nonempty (uu : array1) : length uu = 1000%nat -> uu <> [].
Proof. intros H Hnil. rewrite Hnil in H. discriminate. Qed.

(** The stages before the last evaluation: with a fit of degree 2 or more
    they give [npoints] new parameters for every count that is not
    negative. *)
Lemma new_parameters {fitpack : SplineLibrary} (u : array1) (t : tck) (smoother : R) (npoints : Z) :
  u <> [] -> (2 <= degree t)%Z -> (0 <= npoints)%Z ->
  exists uu curv curv_int u_new,
    fine_discrete_space u = Ok uu /\
    curvature_sample t uu smoother = Ok curv /\
    cumtrapz curv uu = Ok curv_int /\
    resample curv_int uu npoints = Ok u_new /\
    Z.of_nat (length u_new) = npoints.
Proof.
  intros Hu Hk Hnp.
  destruct (fine_discrete_space_ok u Hu) as (uu & Hgrid & Huu).
  destruct (curvature_sample_ok t uu smoother Hk (length_1000_nonempty uu Huu))
    as (curv & Hcurv & Hcl).
  assert (Hne : curv <> []).
  { intro H. rewrite H in Hcl. simpl in Hcl. lia. }
  destruct (resample_ok (0 :: cumsum (trapezoids curv uu)) uu npoints)
    as (u_new & Hres & Hnew); [| now left | exact Hnp |].
  { simpl. rewrite cumsum_length, trapezoids_length by (symmetry; exact Hcl).
    lia. }
  exists uu, curv, (0 :: cumsum (trapezoids curv uu)), u_new.
  repeat split; try assumption.
  exact (cumtrapz_ok curv uu (eq_sym Hcl) Hne).
Qed.

Lemma pipeline_unfold {fitpack : SplineLibrary} (original : ndarray) (npoints k : Z) (s smoother : R)
    (t : tck) (u uu curv curv_int u_new : array1) :
  splprep original k s = Ok (t, u) ->
  fine_discrete_space u = Ok uu ->
  curvature_sample t uu smoother = Ok curv ->
  cumtrapz curv uu = Ok curv_int ->
  resample curv_int uu npoints = Ok u_new ->
  curvature_based_bspline original npoints k s smoother =
  ('(x, y) <- splev u_new t 0 ;; Ok (transpose [x; y]))%exc.
Proof.
  intros Hfit Hgrid Hcurv Hci Hres. unfold curvature_based_bspline.
  rewrite Hfit. cbn [exc_bind]. rewrite Hgrid. cbn [exc_bind].
  rewrite Hcurv. cbn [exc_bind]. rewrite Hci. cbn [exc_bind].
  rewrite Hres. reflexivity.
Qed.

(** C1, as amended.  For a sample set the fitter accepts, with a fitted
    spline of degree 2 or more: for every requested count [npoints >= 1],
    [curvature_based_bspline] returns exactly [npoints] rows of two
    coordinates; for [npoints = 0] it raises [ValueError], the last
    evaluation being given an empty array. *)
Theorem curvature_based_bspline_returns_npoints {fitpack : SplineLibrary}
    (original : ndarray) (npoints k : Z) (s smoother : R)
    (t : tck) (u : array1) :
  splprep original k s = Ok (t, u) -> u <> [] -> (2 <= degree t)%Z ->
  ((1 <= npoints)%Z ->
   exists rows,
     curvature_based_bspline original npoints k s smoother = Ok rows /\
     Z.of_nat (length rows) = npoints /\
     Forall (fun row => length row = 2%nat) rows) /\
  (npoints = 0%Z ->
   curvature_based_bspline original npoints k s smoother = Raise ValueError).
Proof.
  intros Hfit Hu Hk. split; intro Hnp.
  - destruct (new_parameters u t smoother npoints Hu Hk ltac:(lia))
      as (uu & curv & ci & u_new & Hgrid & Hcurv & Hci & Hres & Hlen).
    rewrite (pipeline_unfold _ _ _ _ _ _ _ _ _ _ _ Hfit Hgrid Hcurv Hci Hres).
    assert (Hne : u_new <> []).
    { intro H. rewrite H in Hlen. simpl in Hlen. lia. }
    rewrite splev_ok by (lia || exact Hne). cbn [exc_bind].
    eexists. split; [reflexivity|]. split.
    + unfold transpose. rewrite length_map, length_seq, length_map. exact Hlen.
    + apply Forall_forall. intros row Hrow. unfold transpose in Hrow.
      apply in_map_iff in Hrow. destruct Hrow as (j & <- & _). reflexivity.
  - destruct (new_parameters u t smoother npoints Hu Hk ltac:(lia))
      as (uu & curv & ci & u_new & Hgrid & Hcurv & Hci & Hres & Hlen).
    rewrite (pipeline_unfold _ _ _ _ _ _ _ _ _ _ _ Hfit Hgrid Hcurv Hci Hres).
    destruct u_new; [|simpl in Hlen; lia].
    rewrite splev_empty. reflexivity.
Qed.

Lemma picky_fit_of_four_samples :
  @splprep picky_library [[0; 1; 2; 3]; [0; 1; 4; 9]] 3 default_s =
  Ok (3%Z, [0; 1]).
Proof.
  simpl.
  repeat (destruct (Req_dec_T _ _) as [Heq|_]; [lra|]).
  reflexivity.
Qed.

Lemma curvature_based_bspline_returns_npoints_witness :
  exists rows,
    @curvature_based_bspline picky_library [[0; 1; 2; 3]; [0; 1; 4; 9]] 10 3
      default_s default_smoother = Ok rows /\
    Z.of_nat (length rows) = 10%Z.
Proof.
  destruct (@curvature_based_bspline_returns_npoints picky_library
              [[0; 1; 2; 3]; [0; 1; 4; 9]] 10 3 default_s default_smoother
              3%Z [0; 1]) as [Hrows _].
  - exact picky_fit_of_four_samples.
  - discriminate.
  - simpl. lia.
  - destruct Hrows as (rows & Hr & Hl & _); [lia|].
    exists rows. split; [exact Hr | exact Hl].
Defined.

(** C1 as first stated fails on accepted sample sets: asked for no point at
    all the function raises [ValueError] (the last evaluation is given an
    empty array), and with a fit of degree 1, a degree the docstring allows,
    it raises [ValueError] for every count. *)
Lemma no_rows_for_zero_points_or_degree_one :
  @curvature_based_bspline picky_library [[0; 1; 2; 3]; [0; 1; 4; 9]] 0 3
    default_s default_smoother = Raise ValueError /\
  @curvature_based_bspline picky_library [[0; 1; 2; 3]; [0; 1; 4; 9]] 200 1
    default_s default_smoother = Raise ValueError.
Proof.
  split.
  - destruct (@new_parameters picky_library [0; 1] 3%Z default_smoother 0)
      as (uu & curv & ci & u_new & Hgrid & Hcurv & Hci & Hres & Hlen);
      [discriminate | simpl; lia | lia |].
    rewrite (@pipeline_unfold picky_library _ _ _ _ _ _ _ _ _ _ _
               picky_fit_of_four_samples Hgrid Hcurv Hci Hres).
    destruct u_new; [|discriminate]. rewrite splev_empty. reflexivity.
  - assert (Hfit : @splprep picky_library [[0; 1; 2; 3]; [0; 1; 4; 9]] 1
                     default_s = Ok (1%Z, [0; 1])).
    { simpl. repeat (destruct (Req_dec_T _ _) as [Heq|_]; [lra|]).
      reflexivity. }
    unfold curvature_based_bspline. rewrite Hfit. cbn [exc_bind].
    destruct (@fine_discrete_space_ok [0; 1] ltac:(discriminate))
      as (uu & -> & Huu). cbn [exc_bind].
    unfold curvature_sample.
    rewrite (@splev_ok picky_library uu 1%Z 1)
      by (simpl; lia || exact (length_1000_nonempty uu Huu)).
    cbn [exc_bind].
    unfold splev at 1. simpl. reflexivity.
Qed.

(** ** Export and batch drivers: claims C6 and C9 *)

Section ExportFacts.

Context {os : OS} {fitpack : SplineLibrary}.

(** A fit the fitter refuses makes the whole function raise the same
    exception. *)
Lemma fit_error_propagates (original : ndarray) (npoints k : Z)
    (s smoother : R) (e : exn) :
  splprep original k s = Raise e ->
  curvature_based_bspline original npoints k s smoother = Raise e.
Proof. intro H. unfold curvature_based_bspline. rewrite H. reflexivity. Qed.

Lemma export_as_bspline_skip (file output_dir : string)
    (func : ndarray -> M ndarray) (rename_fn : string -> string -> string)
    (st : State) :
  is_file (world st) (rename_fn output_dir file) = true ->
  export_as_bspline file output_dir func rename_fn false st = (Ok tt, st).
Proof. intro H. unfold export_as_bspline. rewrite H. reflexivity. Qed.

Lemma export_as_bspline_run (file output_dir : string)
    (func : ndarray -> M ndarray) (rename_fn : string -> string -> string)
    (force : bool) (st : State) :
  is_file (world st) (rename_fn output_dir file) = false \/ force = true ->
  export_as_bspline file output_dir func rename_fn force st =
  (data <- ask (fun w => genfromtxt w file) ;;
   spline <- func (transpose data) ;;
   modify (fun w => savetxt w (rename_fn output_dir file) spline "%.18e"))%io st.
Proof.
  intro H. unfold export_as_bspline.
  destruct H as [H|H]; rewrite H; [reflexivity|].
  rewrite orb_true_r. reflexivity.
Qed.

Lemma export_as_bspline_func_raises (file output_dir : string)
    (func : ndarray -> M ndarray) (rename_fn : string -> string -> string)
    (force : bool) (st st1 : State) (data : ndarray) (e : exn) :
  is_file (world st) (rename_fn output_dir file) = false \/ force = true ->
  genfromtxt (world st) file = Ok data ->
  func (transpose data) st = (Raise e, st1) ->
  export_as_bspline file output_dir func rename_fn force st = (Raise e, st1).
Proof.
  intros Hrun Hread Hfunc. rewrite export_as_bspline_run by exact Hrun.
  unfold bind, ask. rewrite Hread, Hfunc. reflexivity.
Qed.

Lemma export_as_bspline_writes (file output_dir : string)
    (func : ndarray -> M ndarray) (rename_fn : string -> string -> string)
    (force : bool) (st st1 : State) (data spline : ndarray) (w' : World) :
  is_file (world st) (rename_fn output_dir file) = false \/ force = true ->
  genfromtxt (world st) file = Ok data ->
  func (transpose data) st = (Ok spline, st1) ->
  savetxt (world st1) (rename_fn output_dir file) spline "%.18e" = Ok w' ->
  export_as_bspline file output_dir func rename_fn force st =
  (Ok tt, {| world := w'; stdout := stdout st1 |}).
Proof.
  intros Hrun Hread Hfunc Hsave. rewrite export_as_bspline_run by exact Hrun.
  unfold bind, ask, modify. rewrite Hread, Hfunc, Hsave. reflexivity.
Qed.

Lemma export_airfoil_data_skip (url output_dir : string) (st : State) :
  is_file (world st) (path_join output_dir (last_component url)) = true ->
  export_airfoil_data url output_dir false st = (Ok tt, st).
Proof. intro H. unfold export_airfoil_data. rewrite H. reflexivity. Qed.

Lemma export_airfoil_data_run (url output_dir : string) (force : bool)
    (st : State) :
  let output := path_join output_dir (last_component url) in
  is_file (world st) output = false \/ force = true ->
  export_airfoil_data url output_dir force st =
  (print ("+ " ++ url ++ " -> " ++ output)%string ;;
   data <- read_airfoil_data url SEARCH_PATTERN ;;
   modify (fun w => savetxt w output data "%.6e"))%io st.
Proof.
  intros output H. unfold export_airfoil_data. fold output.
  destruct H as [H|H]; rewrite H; [reflexivity|].
  rewrite orb_true_r. reflexivity.
Qed.


(** [try ... except ValueError: pass] lets no [ValueError] through. *)
Lemma try_except_no_ValueError (body : M unit) (st : State) :
  fst (try_except_ValueError body st) <> Raise ValueError.
Proof.
  unfold try_except_ValueError.
  destruct (body st) as [[[]|[]] st']; simpl; discriminate.
Qed.

Lemma for_each_no_ValueError {A : Type} (body : A -> M unit) (xs : list A) :
  (forall x st, fst (body x st) <> Raise ValueError) ->
  forall st, fst (for_each xs body st) <> Raise ValueError.
Proof.
  intro Hbody. induction xs as [|x xs IH]; intro st; simpl.
  - discriminate.
  - unfold bind. specialize (Hbody x st).
    destruct (body x st) as [[[]|e] st']; simpl in *; [apply IH|exact Hbody].
Qed.

Lemma for_each_skip {A : Type} (body : A -> M unit) (x : A) (xs : list A)
    (st : State) :
  body x st = (Ok tt, st) ->
  for_each (x :: xs) body st = for_each xs body st.
Proof. intro H. simpl. unfold bind. rewrite H. reflexivity. Qed.








(** A loop over items none of which raises visits them all and returns. *)
Lemma runs_in_order_all {A : Type} (body : A -> M unit) (xs : list A)
    (st : State) (r : exc unit * State) :
  runs_in_order body xs st r ->
  (forall x st0, In x xs -> exists st1, body x st0 = (Ok tt, st1)) ->
  fst r = Ok tt.
Proof.
  induction 1 as [st|x xs st st1 r Hx Hr IH|x xs st st1 e Hx]; intro Hall.
  - reflexivity.
  - apply IH. intros y st0 Hy. apply Hall. now right.
  - destruct (Hall x st (or_introl eq_refl)) as [st2 H2]. congruence.
Qed.

End ExportFacts.




(** C9, as amended.  If the target exists and [force] is false, the export
    changes nothing and never calls [func] (or the download): the result is
    the same for every [func].  Otherwise the input is read and [func] is
    called; the file is written when that call returns, and when it raises
    the exception goes on to the caller.  The script's export is the same
    function. *)
Theorem export_guarded_by_existing_target
    {os : OS} {fitpack : SplineLibrary}
    (file output_dir url : string) (func : ndarray -> M ndarray)
    (rename_fn : string -> string -> string) (force : bool) (st : State) :
  let output := rename_fn output_dir file in
  let target := path_join output_dir (last_component url) in
  (is_file (world st) output = true -> force = false ->
   export_as_bspline file output_dir func rename_fn force st = (Ok tt, st)) /\
  (is_file (world st) output = false \/ force = true ->
   forall data, genfromtxt (world st) file = Ok data ->
     (forall spline st1 w',
        func (transpose data) st = (Ok spline, st1) ->
        savetxt (world st1) output spline "%.18e" = Ok w' ->
        export_as_bspline file output_dir func rename_fn force st =
        (Ok tt, {| world := w'; stdout := stdout st1 |})) /\
     (forall e st1,
        func (transpose data) st = (Raise e, st1) ->
        export_as_bspline file output_dir func rename_fn force st =
        (Raise e, st1))) /\
  BinBspline.export_as_bspline file output_dir func rename_fn force =
  export_as_bspline file output_dir func rename_fn force /\
  (is_file (world st) target = true -> force = false ->
   export_airfoil_data url output_dir force st = (Ok tt, st)) /\
  (is_file (world st) target = false \/ force = true ->
   export_airfoil_data url output_dir force st =
   (print ("+ " ++ url ++ " -> " ++ target)%string ;;
    data <- read_airfoil_data url SEARCH_PATTERN ;;
    modify (fun w => savetxt w target data "%.6e"))%io st).
Proof.
  intros output target. split; [|split; [|split; [|split]]].
  - intros Hfile ->. apply export_as_bspline_skip. exact Hfile.
  - intros Hrun data Hread. split.
    + intros spline st1 w' Hfunc Hsave.
      apply export_as_bspline_writes with data spline; assumption.
    + intros e st1 Hfunc.
      apply export_as_bspline_func_raises with data; assumption.
  - reflexivity.
  - intros Hfile ->. apply export_airfoil_data_skip. exact Hfile.
  - intro Hrun. apply export_airfoil_data_run. exact Hrun.
Qed.

Lemma export_guarded_by_existing_target_witness :
  let st := @Build_State sample_os
              [("out/uniform_a.dat", [[7; 7]]); ("a.dat", [[0; 0]; [1; 1]])]
              [] in
  @export_as_bspline sample_os "a.dat" "out"
    (fun _ => raise ValueError) default_rename_fn false st = (Ok tt, st).
Proof.
  intro st.
  destruct (@export_guarded_by_existing_target sample_os parabola_library
              "a.dat" "out" "x/naca0012.dat" (fun _ => raise ValueError)
              default_rename_fn false st) as [Hskip _].
  apply Hskip; reflexivity.
Defined.

(** C9 as first stated fails when the conversion raises: the target does not
    exist, yet nothing is written. *)
Lemma export_writes_nothing_when_fit_fails :
  let st := @Build_State sample_os [("a.dat", [[0; 0]; [1; 1]])] [] in
  @is_file sample_os (world st) (default_rename_fn "out" "a.dat") = false /\
  @export_as_bspline sample_os "a.dat" "out"
    (fun original =>
       lift (@curvature_based_bspline degenerate_library original
               default_npoints default_k default_s default_smoother))
    default_rename_fn false st = (Raise ValueError, st).
Proof. intro st. split; reflexivity. Qed.

(** ** Defaults: claim C7 *)

Lemma fine_discrete_space_length (u uu : array1) :
  fine_discrete_space u = Ok uu -> length uu = 1000%nat.
Proof.
  unfold fine_discrete_space.
  destruct (np_min u) as [lo|]; [|discriminate].
  destruct (np_max u) as [hi|]; [|discriminate].
  simpl. intro H. pose proof (linspace_length _ _ _ _ H). lia.
Qed.

Lemma bias_default_values (e : entry_point) :
  bias_default e =
  match e with
  | CliUniformize => 50
  | ScriptMain => 30
  | PackageFunction | ScriptFunction => 10
  end.
Proof. destruct e; reflexivity. Qed.

Lemma bias_default_50 (e : entry_point) :
  bias_default e = 50 <-> e = CliUniformize.
Proof.
  rewrite bias_default_values.
  destruct e; split; intro H; try reflexivity; try discriminate; lra.
Qed.

Lemma bias_default_10 (e : entry_point) :
  bias_default e = 10 <-> e = PackageFunction \/ e = ScriptFunction.
Proof.
  rewrite bias_default_values.
  destruct e; split; intro H; auto; try lra;
    destruct H as [H|H]; discriminate.
Qed.

Lemma bias_default_30 (e : entry_point) :
  bias_default e = 30 <-> e = ScriptMain.
Proof.
  rewrite bias_default_values.
  destruct e; split; intro H; try reflexivity; try discriminate; lra.
Qed.

Lemma npoints_default_192 (e : entry_point) :
  npoints_default e = 192%Z <-> e = CliUniformize.
Proof. destruct e; split; intro H; try reflexivity; discriminate. Qed.

Lemma npoints_default_200 (e : entry_point) :
  npoints_default e = 200%Z <-> e <> CliUniformize.
Proof.
  destruct e; split; intro H; try reflexivity; try discriminate.
  exfalso. apply H. reflexivity.
Qed.

(** C7, as amended.  The function (in both copies) defaults to
    [npoints = 200], [k = 3], [s = 1e-6], [smoother = 10] over a grid of 1000
    parameters.  Exactly one entry point, [uniformize], defaults the bias to
    50, and it defaults the point count to 192; the script's command line
    defaults the bias to 30.  Every entry point defaults the degree to 3. *)
Theorem entry_point_defaults :
  default_npoints = 200%Z /\ default_k = 3%Z /\
  default_s = 1 / 1000000 /\ default_smoother = 10 /\
  (forall u uu, fine_discrete_space u = Ok uu -> length uu = 1000%nat) /\
  (forall e, bias_default e = 50 <-> e = CliUniformize) /\
  (forall e, bias_default e = 10 <-> e = PackageFunction \/ e = ScriptFunction) /\
  (forall e, bias_default e = 30 <-> e = ScriptMain) /\
  (forall e, npoints_default e = 192%Z <-> e = CliUniformize) /\
  (forall e, npoints_default e = 200%Z <-> e <> CliUniformize) /\
  (forall e, degree_default e = 3%Z).
Proof.
  split; [reflexivity|]. split; [reflexivity|]. split; [reflexivity|].
  split; [reflexivity|]. split; [exact fine_discrete_space_length|].
  split; [exact bias_default_50|]. split; [exact bias_default_10|].
  split; [exact bias_default_30|]. split; [exact npoints_default_192|].
  split; [exact npoints_default_200|].
  intros []; reflexivity.
Qed.

(** C7 as first stated fails at two entry points: [uniformize] does not
    default the point count to 200, and the script's command line defaults
    the bias to neither 10 nor 50. *)
Lemma entry_points_off_the_stated_defaults :
  npoints_default CliUniformize <> 200%Z /\
  bias_default ScriptMain <> 10 /\ bias_default ScriptMain <> 50.
Proof.
  split; [discriminate|].
  unfold bias_default. simpl. split; lra.
Qed.

(** ** Scraping: claim C10 *)

Lemma take_drop_while (p : N -> bool) (l : text) :
  take_while p l ++ drop_while p l = l.
Proof.
  induction l as [|c l IH]; simpl; [reflexivity|].
  destruct (p c); simpl; [rewrite IH|]; reflexivity.
Qed.

Lemma take_while_all (p : N -> bool) (l : text) :
  forallb p (take_while p l) = true.
Proof.
  induction l as [|c l IH]; simpl; [reflexivity|].
  destruct (p c) eqn:E; simpl; [rewrite E, IH|]; reflexivity.
Qed.

Lemma drop_while_stops (p : N -> bool) (l : text) : stops p (drop_while p l).
Proof.
  induction l as [|c l IH]; simpl; [exact I|].
  destruct (p c) eqn:E; [exact IH | exact E].
Qed.

Lemma take_while_app (p : N -> bool) (a r : text) :
  forallb p a = true -> stops p r -> take_while p (a ++ r) = a.
Proof.
  intros Ha Hr. induction a as [|c a IH]; simpl in *.
  - destruct r as [|c r]; [reflexivity|]. simpl in *. rewrite Hr. reflexivity.
  - apply andb_true_iff in Ha. destruct Ha as [Hc Ha].
    rewrite Hc, (IH Ha). reflexivity.
Qed.

Lemma drop_while_app (p : N -> bool) (a r : text) :
  forallb p a = true -> stops p r -> drop_while p (a ++ r) = r.
Proof.
  intros Ha Hr. induction a as [|c a IH]; simpl in *.
  - destruct r as [|c r]; [reflexivity|]. simpl in *. rewrite Hr. reflexivity.
  - apply andb_true_iff in Ha. destruct Ha as [Hc Ha].
    rewrite Hc. apply IH, Ha.
Qed.

Ltac class_arith :=
  unfold is_space, is_digit_dot_minus, is_digit_dot, is_digit in *;
  repeat match goal with
         | H : _ = false |- _ => apply not_true_iff_false in H
         | |- _ = false => apply not_true_iff_false; intro
         end;
  repeat match goal with
         | H : context [(_ || _)%bool = true] |- _ => rewrite orb_true_iff in H
         | H : context [(_ && _)%bool = true] |- _ => rewrite andb_true_iff in H
         | H : context [(_ <=? _)%N = true] |- _ => rewrite N.leb_le in H
         | H : context [(_ =? _)%N = true] |- _ => rewrite N.eqb_eq in H
         | |- context [(_ || _)%bool = true] => rewrite orb_true_iff
         | |- context [(_ && _)%bool = true] => rewrite andb_true_iff
         | |- context [(_ <=? _)%N = true] => rewrite N.leb_le
         | |- context [(_ =? _)%N = true] => rewrite N.eqb_eq
         end;
  lia.

(** Blanks are disjoint from the two character classes, and the first class
    lies inside the second and has no sign. *)
Lemma space_not_digit_dot_minus (c : N) :
  is_space c = true -> is_digit_dot_minus c = false.
Proof. intro H. class_arith. Qed.

Lemma digit_dot_minus_not_space (c : N) :
  is_digit_dot_minus c = true -> is_space c = false.
Proof. intro H. class_arith. Qed.

Lemma digit_dot_is_digit_dot_minus (c : N) :
  is_digit_dot c = true -> is_digit_dot_minus c = true.
Proof. intro H. class_arith. Qed.

Lemma space_not_digit_dot (c : N) :
  is_space c = true -> is_digit_dot c = false.
Proof. intro H. class_arith. Qed.

Lemma digit_dot_not_sign (c : N) :
  is_digit_dot c = true -> c <> 45%N /\ c <> 43%N.
Proof. intro H. split; intro; subst c; discriminate. Qed.

Lemma minus_not_digit_dot : is_digit_dot 45 = false.
Proof. reflexivity. Qed.

Lemma minus_not_space : is_space 45 = false.
Proof. reflexivity. Qed.

Lemma nonempty_stops (p q : N -> bool) (a r : text) :
  a <> [] -> forallb q a = true -> (forall c, q c = true -> p c = false) ->
  stops p (a ++ r).
Proof.
  intros Hne Ha Hpq. destruct a as [|c a]; [contradiction|].
  simpl in *. apply andb_true_iff in Ha. apply Hpq, Ha.
Qed.

Lemma all_space_stops (p : N -> bool) (a : text) :
  forallb is_space a = true -> (forall c, is_space c = true -> p c = false) ->
  stops p a.
Proof.
  intros Ha Hp. destruct a as [|c a]; [exact I|].
  simpl in *. apply andb_true_iff in Ha. apply Hp, Ha.
Qed.

Lemma drop_while_all (p : N -> bool) (a : text) :
  forallb p a = true -> drop_while p a = [].
Proof.
  intro Ha. rewrite <- (app_nil_r a). apply drop_while_app; [exact Ha|exact I].
Qed.

Lemma is_empty_false (l : text) : l <> [] -> is_empty l = false.
Proof. destruct l; [contradiction|reflexivity]. Qed.

Lemma is_empty_true (l : text) : is_empty l = true -> l = [].
Proof. destruct l; [reflexivity|discriminate]. Qed.

Lemma negb_is_empty (l : text) : negb (is_empty l) = true -> l <> [].
Proof. destruct l; [discriminate|]. intros _. discriminate. Qed.

(** The scan computes exactly the matches of the regular expression. *)
Lemma SEARCH_PATTERN_matches (line g1 g2 : text) :
  SEARCH_PATTERN line = Some [g1; g2] <-> matches_pattern line g1 g2.
Proof.
  split.
  - unfold SEARCH_PATTERN.
    set (r0 := drop_while is_space line).
    set (r1 := drop_while is_digit_dot r0).
    set (r2 := drop_while is_space r1).
    set (r3 := drop_while is_digit_dot_minus r2).
    destruct (negb (is_empty (take_while is_digit_dot r0))) eqn:E1;
      [|discriminate].
    destruct (negb (is_empty (take_while is_space r1))) eqn:E2;
      [|discriminate].
    destruct (negb (is_empty (take_while is_digit_dot_minus r2))) eqn:E3;
      [|discriminate].
    destruct (is_empty (drop_while is_space r3)) eqn:E4; [|discriminate].
    simpl. intro H. injection H as <- <-.
    exists (take_while is_space line), (take_while is_space r1),
           (take_while is_space r3).
    repeat split; try apply take_while_all; try (apply negb_is_empty; assumption).
    apply is_empty_true in E4.
    rewrite <- (take_drop_while is_space line) at 1. fold r0. f_equal.
    rewrite <- (take_drop_while is_digit_dot r0) at 1. fold r1. f_equal.
    rewrite <- (take_drop_while is_space r1) at 1. fold r2. f_equal.
    rewrite <- (take_drop_while is_digit_dot_minus r2) at 1. fold r3. f_equal.
    rewrite <- (take_drop_while is_space r3) at 1. rewrite E4.
    apply app_nil_r.
  - intros (s1 & s2 & s3 & -> & Hs1 & Hg1 & Hd1 & Hs2 & Hw2 & Hg2 & Hd2 & Hs3).
    unfold SEARCH_PATTERN.
    assert (St1 : stops is_space (g1 ++ s2 ++ g2 ++ s3)).
    { apply nonempty_stops with is_digit_dot; auto.
      intros c Hc. apply digit_dot_minus_not_space,
        digit_dot_is_digit_dot_minus, Hc. }
    assert (St2 : stops is_digit_dot (s2 ++ g2 ++ s3)).
    { apply nonempty_stops with is_space; auto. apply space_not_digit_dot. }
    assert (St3 : stops is_space (g2 ++ s3)).
    { apply nonempty_stops with is_digit_dot_minus; auto.
      apply digit_dot_minus_not_space. }
    assert (St4 : stops is_digit_dot_minus s3).
    { apply all_space_stops; auto. apply space_not_digit_dot_minus. }
    rewrite (drop_while_app is_space s1 _ Hs1 St1).
    rewrite (take_while_app is_digit_dot g1 _ Hd1 St2).
    rewrite (drop_while_app is_digit_dot g1 _ Hd1 St2).
    rewrite (take_while_app is_space s2 _ Hw2 St3).
    rewrite (drop_while_app is_space s2 _ Hw2 St3).
    rewrite (take_while_app is_digit_dot_minus g2 _ Hd2 St4).
    rewrite (drop_while_app is_digit_dot_minus g2 _ Hd2 St4).
    rewrite (drop_while_all is_space s3 Hs3).
    rewrite !is_empty_false by assumption. reflexivity.
Qed.

Lemma SEARCH_PATTERN_two_groups (line : text) (groups : list text) :
  SEARCH_PATTERN line = Some groups ->
  exists g1 g2, groups = [g1; g2] /\ matches_pattern line g1 g2.
Proof.
  intro H.
  assert (Hshape : exists g1 g2, groups = [g1; g2]).
  { unfold SEARCH_PATTERN in H.
    destruct (_ && _ && _ && _)%bool; [|discriminate].
    injection H as <-. eexists. eexists. reflexivity. }
  destruct Hshape as (g1 & g2 & ->).
  exists g1, g2. split; [reflexivity|]. apply SEARCH_PATTERN_matches, H.
Qed.

(** A line whose first column starts with a minus sign does not match. *)
Lemma negative_first_column_dropped (s1 rest : text) :
  forallb is_space s1 = true -> SEARCH_PATTERN (s1 ++ 45%N :: rest) = None.
Proof.
  intro Hs1. unfold SEARCH_PATTERN.
  rewrite (drop_while_app is_space s1 (45%N :: rest) Hs1 minus_not_space).
  reflexivity.
Qed.

Lemma digits_value_nonneg (ds : text) (acc : Z) :
  forallb is_digit ds = true -> (0 <= acc)%Z -> (0 <= digits_value acc ds)%Z.
Proof.
  revert acc. induction ds as [|d ds IH]; intros acc Hds Hacc; simpl; [exact Hacc|].
  simpl in Hds. apply andb_true_iff in Hds. destruct Hds as [Hd Hds].
  apply IH; [exact Hds|].
  unfold is_digit in Hd. apply andb_true_iff in Hd. destruct Hd as [Hlo Hhi].
  apply N.leb_le in Hlo. lia.
Qed.

Lemma parse_unsigned_nonneg (t : text) (q : Q) :
  parse_unsigned t = Some q -> (0 <= q)%Q.
Proof.
  unfold parse_unsigned.
  pose proof (take_while_all is_digit t) as Hip.
  destruct (drop_while is_digit t) as [|c fp].
  - destruct (is_empty (take_while is_digit t)); [discriminate|].
    intro H. injection H as <-.
    unfold Qle, inject_Z. simpl.
    pose proof (digits_value_nonneg _ 0 Hip ltac:(lia)). lia.
  - destruct ((c =? 46)%N && forallb is_digit fp &&
              negb (is_empty (take_while is_digit t) && is_empty fp))%bool
      eqn:E; [|discriminate].
    apply andb_true_iff in E. destruct E as [E _].
    apply andb_true_iff in E. destruct E as [_ Hfp].
    intro H. injection H as <-.
    unfold Qle. simpl.
    assert (Hall : forallb is_digit (take_while is_digit t ++ fp) = true)
      by (rewrite forallb_app, Hip, Hfp; reflexivity).
    pose proof (digits_value_nonneg _ 0 Hall ltac:(lia)). lia.
Qed.

(** A group of digits and dots that converts, converts to a number that is
    not negative. *)
Lemma parse_float_first_group_nonneg (g : text) (q : Q) :
  forallb is_digit_dot g = true -> parse_float g = Ok q -> (0 <= q)%Q.
Proof.
  intros Hg. unfold parse_float.
  destruct g as [|c u].
  - destruct (parse_unsigned []) eqn:E; [|discriminate].
    intro H. injection H as <-. apply (parse_unsigned_nonneg _ _ E).
  - simpl in Hg. apply andb_true_iff in Hg. destruct Hg as [Hc _].
    destruct (digit_dot_not_sign c Hc) as [H45 H43].
    apply N.eqb_neq in H45, H43. rewrite H45, H43.
    destruct (parse_unsigned (c :: u)) eqn:E; [|discriminate].
    intro H. injection H as <-. apply (parse_unsigned_nonneg _ _ E).
Qed.

Lemma parse_row_two (g1 g2 : text) (row : list R) :
  parse_row [g1; g2] = Ok row ->
  exists q1 q2, parse_float g1 = Ok q1 /\ parse_float g2 = Ok q2 /\
                row = [Q2R q1; Q2R q2].
Proof.
  simpl. destruct (parse_float g1) as [q1|]; [|discriminate].
  destruct (parse_float g2) as [q2|]; [|discriminate].
  simpl. intro H. apply Ok_inj in H. exists q1, q2. auto.
Qed.

Lemma parse_rows_of_kept_lines (page_content : list text) (rows : ndarray) :
  parse_rows (matched_groups SEARCH_PATTERN page_content) = Ok rows ->
  Forall2 row_of_line (kept_lines page_content) rows.
Proof.
  revert rows. induction page_content as [|line r IH]; intros rows H; simpl in *.
  - apply Ok_inj in H. subst rows. constructor.
  - destruct (SEARCH_PATTERN line) as [groups|] eqn:E; [|apply IH, H].
    destruct (SEARCH_PATTERN_two_groups line groups E) as (g1 & g2 & -> & Hm).
    change (parse_rows ([g1; g2] :: matched_groups SEARCH_PATTERN r))
      with (row <- parse_row [g1; g2] ;;
            rest <- parse_rows (matched_groups SEARCH_PATTERN r) ;;
            Ok (row :: rest))%exc in H.
    destruct (parse_row [g1; g2]) as [row|] eqn:Erow; [|discriminate].
    destruct (parse_rows (matched_groups SEARCH_PATTERN r)) as [rest|] eqn:Erest;
      [|discriminate].
    simpl in H. apply Ok_inj in H. subst rows.
    destruct (parse_row_two g1 g2 row Erow) as (q1 & q2 & H1 & H2 & ->).
    constructor; [|apply IH; reflexivity].
    exists g1, g2, q1, q2. repeat split; try assumption.
    apply (parse_float_first_group_nonneg g1 q1); [|exact H1].
    destruct Hm as (s1 & s2 & s3 & _ & _ & _ & Hd1 & _). exact Hd1.
Qed.

Lemma asarray_float32_inv (groups : list (list text)) (rows : ndarray) :
  asarray_float32 groups = Ok rows -> parse_rows groups = Ok rows.
Proof.
  unfold asarray_float32. destruct groups as [|g r]; [trivial|].
  destruct (forallb _ _); [trivial|discriminate].
Qed.

Lemma rows_first_coordinate (lines : list text) (rows : ndarray) :
  Forall2 row_of_line lines rows -> Forall (fun row => 0 <= nth 0 row 0) rows.
Proof.
  induction 1 as [|line row lines rows Hrow _ IH]; constructor; [|exact IH].
  destruct Hrow as (g1 & g2 & q1 & q2 & _ & _ & _ & -> & Hq).
  simpl. rewrite <- RMicromega.Q2R_0. apply Qle_Rle, Hq.
Qed.

Example SEARCH_PATTERN_coordinates :
  SEARCH_PATTERN (str " 0.500000 -0.052940") =
  Some [str "0.500000"; str "-0.052940"].
Proof. reflexivity. Qed.

Example SEARCH_PATTERN_title :
  SEARCH_PATTERN (str "NACA 0012 AIRFOILS") = None.
Proof. reflexivity. Qed.

Example SEARCH_PATTERN_negative_first_column :
  SEARCH_PATTERN (str "-0.100000  0.200000") = None.
Proof. reflexivity. Qed.

Example parse_float_negative : parse_float (str "-0.052940") = Ok (-52940 # 1000000)%Q.
Proof. reflexivity. Qed.

Example parse_float_two_dots : parse_float (str "1.2.3") = Raise ValueError.
Proof. reflexivity. Qed.

Example splitlines_sample :
  splitlines (str sample_page) =
  [str "NACA 0012 AIRFOILS"; str " 1.000000  0.001260";
   str " 0.500000 -0.052940"; str "-0.100000  0.200000"].
Proof. reflexivity. Qed.

Section ScrapingFacts.

Context {os : OS}.

Lemma read_airfoil_data_inv (url : string) (st st' : State) (rows : ndarray) :
  read_airfoil_data url SEARCH_PATTERN st = (Ok rows, st') ->
  exists page decoded,
    get_url_content url st = (Ok page, st') /\
    decode page = Ok decoded /\
    asarray_float32 (matched_groups SEARCH_PATTERN (splitlines decoded)) = Ok rows.
Proof.
  unfold read_airfoil_data, bind, lift.
  destruct (get_url_content url st) as [[page|e] st1]; [|discriminate].
  destruct (decode page) as [decoded|e] eqn:Edec; [|discriminate].
  intro H. injection H as Harr Hst. subst st1.
  exists page, decoded. repeat split; [exact Edec | exact Harr].
Qed.

End ScrapingFacts.

(** C10.  A line is kept exactly when it matches
    [blanks* digits/dots blanks+ digits/dots/minus blanks*]; a line whose
    first column starts with a minus sign, like any other non-matching line,
    is dropped; the rows of the returned array are the kept lines, in page
    order, and the first coordinate of every row is not negative. *)
Theorem read_airfoil_data_first_column_nonneg {os : OS} :
  (forall line g1 g2,
     SEARCH_PATTERN line = Some [g1; g2] <-> matches_pattern line g1 g2) /\
  (forall page_content line,
     In line (kept_lines page_content) <->
     In line page_content /\ exists g1 g2, matches_pattern line g1 g2) /\
  (forall s1 rest,
     forallb is_space s1 = true -> SEARCH_PATTERN (s1 ++ 45%N :: rest) = None) /\
  (forall url st rows st',
     read_airfoil_data url SEARCH_PATTERN st = (Ok rows, st') ->
     exists page decoded,
       get_url_content url st = (Ok page, st') /\
       decode page = Ok decoded /\
       Forall2 row_of_line (kept_lines (splitlines decoded)) rows /\
       Forall (fun row => 0 <= nth 0 row 0) rows).
Proof.
  split; [exact SEARCH_PATTERN_matches|]. split; [|split].
  - intros page_content line. unfold kept_lines. rewrite filter_In.
    destruct (SEARCH_PATTERN line) as [groups|] eqn:E.
    + split; [|intros [Hin _]; split; [exact Hin|reflexivity]].
      intros [Hin _]. split; [exact Hin|].
      destruct (SEARCH_PATTERN_two_groups line groups E)
        as (g1 & g2 & _ & Hm). exists g1, g2. exact Hm.
    + split; [intros [_ H]; discriminate|].
      intros [_ (g1 & g2 & Hm)]. apply SEARCH_PATTERN_matches in Hm.
      rewrite E in Hm. discriminate.
  - exact negative_first_column_dropped.
  - intros url st rows st' H.
    destruct (read_airfoil_data_inv url st st' rows H)
      as (page & decoded & Hget & Hdec & Harr).
    exists page, decoded. split; [exact Hget|]. split; [exact Hdec|].
    pose proof (parse_rows_of_kept_lines _ _ (asarray_float32_inv _ _ Harr))
      as Hrows.
    split; [exact Hrows | exact (rows_first_coordinate _ _ Hrows)].
Qed.

Lemma read_airfoil_data_first_column_nonneg_witness :
  let st := @Build_State sample_os [] [] in
  let rows := [[Q2R (1000000 # 1000000); Q2R (1260 # 1000000)];
               [Q2R (500000 # 1000000); Q2R (-52940 # 1000000)]] in
  @read_airfoil_data sample_os "x/naca0012.dat" SEARCH_PATTERN st = (Ok rows, st) /\
  Forall (fun row => 0 <= nth 0 row 0) rows.
Proof.
  intros st rows.
  assert (Hread : @read_airfoil_data sample_os "x/naca0012.dat"
                    SEARCH_PATTERN st = (Ok rows, st)) by reflexivity.
  split; [exact Hread|].
  destruct (@read_airfoil_data_first_column_nonneg sample_os)
    as (_ & _ & _ & Hrows).
  destruct (Hrows _ _ _ _ Hread) as (page & decoded & _ & _ & _ & Hpos).
  exact Hpos.
Defined.

(** ** Worked examples *)

Ltac same_arrays :=
  apply f_equal; repeat (apply (f_equal2 cons); [lra|]); reflexivity.

Example linspace_five : linspace 0 1 5 = Ok [0; 1 / 4; 1 / 2; 3 / 4; 1].
Proof. unfold linspace. simpl. same_arrays. Qed.

Example linspace_single : linspace 0 7 1 = Ok [0].
Proof. unfold linspace. simpl. same_arrays. Qed.

Example linspace_negative_count : linspace 0 1 (-1) = Raise ValueError.
Proof. reflexivity. Qed.

Example cumtrapz_ramp : cumtrapz [2; 4; 6] [0; 1; 2] = Ok [0; 3; 8].
Proof. unfold cumtrapz, trapezoids. simpl. same_arrays. Qed.

Example cumtrapz_shape_mismatch : cumtrapz [2; 4] [0; 1; 2] = Raise ValueError.
Proof. reflexivity. Qed.

Example call_linear_inside : call_linear [0; 3; 8] [0; 1; 2] 4 = 6 / 5.
Proof.
  rewrite (call_linear_segment [0; 3; 8] [0; 1; 2] 4 2).
  - simpl. lra.
  - apply ascending_strictly_increasing. simpl. repeat split; lra.
  - simpl. lia.
  - simpl. lra.
Qed.

Example np_interp_inside : np_interp [0; 3; 8] [0; 1; 2] 4 = 6 / 5.
Proof.
  rewrite np_interp_call_linear.
  - exact call_linear_inside.
  - apply ascending_strictly_increasing. simpl. repeat split; lra.
  - discriminate.
  - simpl. lra.
Qed.

Example interp1d_above_bounds :
  interp1d [0; 3; 8] [0; 1; 2] [9] = Raise ValueError.
Proof.
  unfold interp1d. simpl.
  repeat (destruct (Rlt_dec _ _); try lra; simpl).
  unfold Rltb. repeat (destruct (Rlt_dec _ _); try lra; simpl). reflexivity.
Qed.

(** * Further properties of the programs *)

(** ** Names and paths *)

Lemma string_length_append (a b : string) :
  String.length (a ++ b)%string = (String.length a + String.length b)%nat.
Proof. induction a as [|c a IH]; simpl; [reflexivity|]. rewrite IH. reflexivity. Qed.

Lemma substring_whole (s : string) : substring 0 (String.length s) s = s.
Proof. induction s as [|c s IH]; simpl; [reflexivity|]. rewrite IH. reflexivity. Qed.

Lemma substring_after (p r : string) (m : nat) :
  substring (String.length p) m (p ++ r)%string = substring 0 m r.
Proof. induction p as [|c p IH]; simpl; [reflexivity|exact IH]. Qed.

Lemma substring_split (s : string) (k : nat) :
  (k <= String.length s)%nat ->
  s = (substring 0 k s ++ substring k (String.length s - k) s)%string.
Proof.
  revert s. induction k as [|k IH]; intros s Hk.
  - rewrite Nat.sub_0_r, substring_whole.
    destruct s; reflexivity.
  - destruct s as [|c s]; simpl in Hk; [lia|].
    simpl. f_equal. apply IH. lia.
Qed.

(** [s.endswith(suffix)] holds exactly of the strings that end with
    [suffix]. *)
Lemma endswith_iff (s suffix : string) :
  endswith s suffix = true <-> exists p, s = (p ++ suffix)%string.
Proof.
  unfold endswith. split.
  - intro H. apply andb_true_iff in H. destruct H as [Hle Heq].
    apply Nat.leb_le in Hle. apply String.eqb_eq in Heq.
    exists (substring 0 (String.length s - String.length suffix) s).
    rewrite (substring_split s (String.length s - String.length suffix))
      at 1 by lia.
    f_equal.
    replace (String.length s - (String.length s - String.length suffix))%nat
      with (String.length suffix) by lia.
    exact Heq.
  - intros [p ->]. rewrite string_length_append.
    apply andb_true_iff. split; [apply Nat.leb_le; lia|].
    replace (String.length p + String.length suffix - String.length suffix)%nat
      with (String.length p) by lia.
    rewrite substring_after, substring_whole. apply String.eqb_refl.
Qed.

Lemma endswith_empty (s : string) : endswith s EmptyString = true.
Proof. apply endswith_iff. exists s. induction s; simpl; congruence. Qed.

Lemma has_slash_append (a b : string) :
  has_slash (a ++ b)%string = (has_slash a || has_slash b)%bool.
Proof.
  induction a as [|c a IH]; simpl; [reflexivity|].
  rewrite IH. apply orb_assoc.
Qed.

Lemma last_component_no_slash_id (s : string) :
  has_slash s = false -> last_component s = s.
Proof.
  destruct s as [|c s]; [reflexivity|]. simpl. intros ->. reflexivity.
Qed.

Lemma last_component_has_no_slash (s : string) :
  has_slash (last_component s) = false.
Proof.
  induction s as [|c s IH]; [reflexivity|]. simpl.
  destruct (Ascii.eqb c "/" || has_slash s)%bool eqn:E; [exact IH|exact E].
Qed.

Lemma last_component_suffix (s : string) :
  exists p, s = (p ++ last_component s)%string /\
            (p = EmptyString \/ exists q, p = (q ++ "/")%string).
Proof.
  induction s as [|c s IH].
  - exists EmptyString. split; [reflexivity|now left].
  - simpl. destruct (Ascii.eqb c "/" || has_slash s)%bool eqn:E.
    + destruct IH as (p & Hs & Hp). exists (String c p).
      split; [simpl; f_equal; exact Hs|]. right.
      destruct Hp as [->|[q ->]].
      * simpl in Hs. rewrite Hs, last_component_has_no_slash, orb_false_r in E.
        apply Ascii.eqb_eq in E. subst c. exists EmptyString. reflexivity.
      * exists (String c q). reflexivity.
    + exists EmptyString. split; [reflexivity|now left].
Qed.

Lemma last_component_basename (d name : string) :
  has_slash name = false -> last_component (d ++ "/" ++ name)%string = name.
Proof.
  intro Hn. induction d as [|c d IH].
  - simpl. apply last_component_no_slash_id, Hn.
  - simpl. rewrite has_slash_append. simpl. rewrite !orb_true_r. exact IH.
Qed.

Lemma substring_prefix (a b : string) :
  substring 0 (String.length a) (a ++ b)%string = a.
Proof.
  induction a as [|c a IH]; simpl; [destruct b; reflexivity|].
  rewrite IH. reflexivity.
Qed.

Lemma prefix_append (a b : string) : prefix a (a ++ b)%string = true.
Proof. apply prefix_correct, substring_prefix. Qed.

Lemma no_slash_not_absolute (b : string) :
  has_slash b = false -> prefix "/" b = false.
Proof.
  intro H. destruct (prefix "/" b) eqn:E; [|reflexivity].
  apply prefix_correct in E. destruct b as [|c b]; [discriminate|].
  change (String c (substring 0 0 b) = "/") in E.
  injection E as Hc _. subst c. discriminate.
Qed.

Lemma path_join_relative (a b : string) :
  prefix "/" b = false -> prefix a (path_join a b) = true.
Proof.
  intro Hb. unfold path_join. rewrite Hb.
  destruct (String.eqb a EmptyString || endswith a "/")%bool;
    apply prefix_append.
Qed.

(** [split("/")[-1]] is the base name of a path: it holds no slash, what
    precedes it in the path is empty or ends with a slash, and it gives back
    the name put after a directory. *)
Theorem last_component_is_basename (s : string) :
  has_slash (last_component s) = false /\
  (exists p, s = (p ++ last_component s)%string /\
             (p = EmptyString \/ exists q, p = (q ++ "/")%string)) /\
  (forall d name, has_slash name = false ->
     last_component (d ++ "/" ++ name)%string = name).
Proof.
  split; [apply last_component_has_no_slash|].
  split; [apply last_component_suffix|].
  exact last_component_basename.
Qed.

Lemma last_component_is_basename_witness :
  last_component ("data/database" ++ "/" ++ "naca0012.dat")%string = "naca0012.dat".
Proof.
  destruct (last_component_is_basename "x") as (_ & _ & H).
  apply H. reflexivity.
Defined.

(** The file an export writes is named after the base name of its input
    alone: inputs with one base name, in whatever directories, have one
    target.  This holds of the default renaming of the package, of that of
    the script, and of the target of a download. *)
Theorem export_target_depends_on_base_name (output_dir d name : string) :
  has_slash name = false ->
  default_rename_fn output_dir (d ++ "/" ++ name)%string =
  default_rename_fn output_dir name /\
  BinBspline.default_renaming output_dir (d ++ "/" ++ name)%string =
  BinBspline.default_renaming output_dir name /\
  path_join output_dir (last_component (d ++ "/" ++ name)%string) =
  path_join output_dir name.
Proof.
  intro Hn.
  unfold default_rename_fn, BinBspline.default_renaming.
  rewrite (last_component_basename d name Hn).
  rewrite (last_component_no_slash_id name Hn).
  repeat split; reflexivity.
Qed.

Lemma export_target_depends_on_base_name_witness :
  default_rename_fn "out" ("a/b" ++ "/" ++ "x.dat")%string =
  default_rename_fn "out" "x.dat".
Proof.
  destruct (export_target_depends_on_base_name "out" "a/b" "x.dat")
    as (H & _).
  - reflexivity.
  - exact H.
Defined.

(** ** Directory listings *)

Section ListingFacts.

Context {os : OS}.

(** The script lists the names of the directory that end with the extension,
    in the order of the directory; with an empty extension it lists them all;
    an error of the directory read goes to the caller. *)
Theorem script_listing_keeps_suffix (directory extension : string)
    (st : State) :
  (forall names, listdir (world st) directory = Ok names ->
     exists files,
       BinBspline.list_files_in_directory directory extension st =
       (Ok files, st) /\
       files = filter (fun file => endswith file extension) names /\
       (forall f, In f files <->
                  In f names /\ exists p, f = (p ++ extension)%string) /\
       (extension = EmptyString -> files = names)) /\
  (forall e, listdir (world st) directory = Raise e ->
     BinBspline.list_files_in_directory directory extension st =
     (Raise e, st)).
Proof.
  split.
  - intros names Hls.
    exists (filter (fun file => endswith file extension) names).
    split.
    { unfold BinBspline.list_files_in_directory, bind, ask, ret.
      rewrite Hls. reflexivity. }
    split; [reflexivity|]. split.
    + intro f. rewrite filter_In, endswith_iff. reflexivity.
    + intros ->. clear Hls. induction names as [|x names IH]; [reflexivity|].
      cbn [filter]. rewrite endswith_empty. f_equal. exact IH.
  - intros e Hls.
    unfold BinBspline.list_files_in_directory, bind, ask. rewrite Hls.
    reflexivity.
Qed.

End ListingFacts.

Lemma script_listing_keeps_suffix_witness :
  let st := @Build_State sample_os
              [("a.dat", [[0; 0]]); ("notes.txt", [[1; 1]])] [] in
  @BinBspline.list_files_in_directory sample_os "db" ".dat" st =
  (Ok ["a.dat"], st).
Proof.
  intro st.
  destruct (@script_listing_keeps_suffix sample_os "db" ".dat" st) as [H _].
  destruct (H ["a.dat"; "notes.txt"] eq_refl) as (files & Hrun & -> & _).
  exact Hrun.
Defined.

(** The order of [sorted]: strings compared code point by code point. *)

Lemma ascii_compare_lt_trans (a b c : ascii) :
  Ascii.compare a b = Lt -> Ascii.compare b c = Lt -> Ascii.compare a c = Lt.
Proof.
  unfold Ascii.compare. rewrite !N.compare_lt_iff. lia.
Qed.

Lemma string_compare_lt_trans (a b c : string) :
  String.compare a b = Lt -> String.compare b c = Lt -> String.compare a c = Lt.
Proof.
  revert b c. induction a as [|x a IH]; intros [|y b] [|z c] Hab Hbc;
    simpl in *; try discriminate; try reflexivity.
  destruct (Ascii.compare x y) eqn:Exy; try discriminate;
    destruct (Ascii.compare y z) eqn:Eyz; try discriminate.
  - apply Ascii.compare_eq_iff in Exy, Eyz. subst y z.
    replace (Ascii.compare x x) with Eq
      by (symmetry; unfold Ascii.compare; apply N.compare_refl).
    exact (IH b c Hab Hbc).
  - apply Ascii.compare_eq_iff in Exy. subst y. rewrite Eyz. reflexivity.
  - apply Ascii.compare_eq_iff in Eyz. subst z. rewrite Exy. reflexivity.
  - rewrite (ascii_compare_lt_trans x y z Exy Eyz). reflexivity.
Qed.

Lemma string_leb_cases (a b : string) :
  String.leb a b = true <-> a = b \/ String.compare a b = Lt.
Proof.
  unfold String.leb. split.
  - destruct (String.compare a b) eqn:E; try discriminate; intros _.
    + left. apply String.compare_eq_iff, E.
    + now right.
  - intros [Heq | Hlt]; [subst a | rewrite Hlt; reflexivity].
    replace (String.compare b b) with Eq; [reflexivity|].
    symmetry. induction b as [|x b IH]; [reflexivity|]. simpl.
    replace (Ascii.compare x x) with Eq
      by (symmetry; unfold Ascii.compare; apply N.compare_refl).
    exact IH.
Qed.

Lemma string_leb_trans (a b c : string) :
  String.leb a b = true -> String.leb b c = true -> String.leb a c = true.
Proof.
  rewrite !string_leb_cases. intros [Hab | Hab] [Hbc | Hbc]; subst; auto.
  right. exact (string_compare_lt_trans a b c Hab Hbc).
Qed.

Lemma string_ltb_leb (a b : string) :
  String.ltb a b = true -> String.leb a b = true.
Proof.
  unfold String.ltb, String.leb.
  destruct (String.compare a b); try discriminate; reflexivity.
Qed.

Lemma string_not_ltb_leb (a b : string) :
  String.ltb a b = false -> String.leb b a = true.
Proof.
  unfold String.ltb, String.leb. rewrite (String.compare_antisym b a).
  destruct (String.compare a b); try discriminate; reflexivity.
Qed.

Lemma insert_sorted_perm (s : string) (l : list string) :
  Permutation (s :: l) (insert_sorted s l).
Proof.
  induction l as [|t l IH]; simpl; [apply Permutation_refl|].
  destruct (String.ltb t s); [|apply Permutation_refl].
  apply perm_trans with (t :: s :: l); [apply perm_swap|].
  apply perm_skip, IH.
Qed.

Lemma sorted_perm (l : list string) : Permutation l (sorted l).
Proof.
  induction l as [|s l IH]; simpl; [apply perm_nil|].
  apply perm_trans with (s :: sorted l); [apply perm_skip, IH|].
  apply insert_sorted_perm.
Qed.

Lemma insert_sorted_ordered (s : string) (l : list string) :
  StronglySorted string_le l -> StronglySorted string_le (insert_sorted s l).
Proof.
  induction l as [|t l IH]; intro Hs; simpl.
  - constructor; constructor.
  - inversion Hs as [|? ? Hl Ht]; subst.
    destruct (String.ltb t s) eqn:E.
    + constructor; [apply IH, Hl|].
      apply Forall_forall. intros z Hz.
      apply (Permutation_in _ (Permutation_sym (insert_sorted_perm s l))) in Hz.
      destruct Hz as [<-|Hz]; [apply string_ltb_leb, E|].
      rewrite Forall_forall in Ht. apply Ht, Hz.
    + pose proof (string_not_ltb_leb t s E) as Hst.
      constructor; [exact Hs|].
      constructor; [exact Hst|].
      rewrite Forall_forall in Ht |- *. intros z Hz.
      exact (string_leb_trans s t z Hst (Ht z Hz)).
Qed.

Lemma sorted_ordered (l : list string) : StronglySorted string_le (sorted l).
Proof.
  induction l as [|s l IH]; simpl; [constructor|].
  apply insert_sorted_ordered, IH.
Qed.

(** The package lists a directory in sorted order: the listing is the
    [glob] result rearranged in ascending order of names; on a path that is
    no directory it raises [TypeError] and leaves the state alone. *)
Theorem package_listing_sorted {os : OS} (directory extension : string)
    (st : State) :
  (is_dir (world st) directory = true ->
   exists files,
     list_files_in_directory directory extension st = (Ok files, st) /\
     Permutation
       (glob (world st) (directory ++ "/*" ++ extension)%string) files /\
     StronglySorted string_le files) /\
  (is_dir (world st) directory = false ->
   list_files_in_directory directory extension st = (Raise TypeError, st)).
Proof.
  unfold list_files_in_directory. split; intros ->; simpl.
  - eexists. split; [reflexivity|].
    split; [apply sorted_perm | apply sorted_ordered].
  - reflexivity.
Qed.

Lemma package_listing_sorted_witness :
  let st := @Build_State sample_os
              [("b.dat", [[0; 0]]); ("a.dat", [[1; 1]])] [] in
  exists files,
    @list_files_in_directory sample_os "db" ".dat" st = (Ok files, st) /\
    StronglySorted string_le files.
Proof.
  intro st.
  destruct (@package_listing_sorted sample_os "db" ".dat" st) as [H _].
  destruct (H eq_refl) as (files & Hrun & _ & Hsorted).
  exists files. split; [exact Hrun | exact Hsorted].
Defined.

Example sorted_names : sorted ["naca2412.dat"; "ag03.dat"; "e61.dat"] =
                       ["ag03.dat"; "e61.dat"; "naca2412.dat"].
Proof. reflexivity. Qed.

(** ** More on the exports and the batch drivers *)

Section BatchFacts.

Context {os : OS} {fitpack : SplineLibrary}.

Lemma export_as_bspline_read_raises (file output_dir : string)
    (func : ndarray -> M ndarray) (rename_fn : string -> string -> string)
    (force : bool) (st : State) (e : exn) :
  is_file (world st) (rename_fn output_dir file) = false \/ force = true ->
  genfromtxt (world st) file = Raise e ->
  export_as_bspline file output_dir func rename_fn force st = (Raise e, st).
Proof.
  intros Hrun Hread. rewrite export_as_bspline_run by exact Hrun.
  unfold bind, ask. rewrite Hread. reflexivity.
Qed.

Lemma try_except_other (body : M unit) (st st1 : State) (e : exn) :
  is_ValueError e = false -> body st = (Raise e, st1) ->
  try_except_ValueError body st = (Raise e, st1).
Proof.
  intros He Hb. unfold try_except_ValueError. rewrite Hb, He. reflexivity.
Qed.


Lemma for_each_abort {A : Type} (body : A -> M unit) (x : A) (xs : list A)
    (st st1 : State) (e : exn) :
  body x st = (Raise e, st1) -> for_each (x :: xs) body st = (Raise e, st1).
Proof. intro H. simpl. unfold bind. rewrite H. reflexivity. Qed.


(** Any exception that is no [ValueError] (nor of its subclass
    [UnicodeDecodeError]), raised while reading or while fitting, ends the
    batch at that item: the remaining files are not touched and nothing is
    written. *)
Theorem other_exceptions_abort_batch
    (output : string) (num_points degree : Z) (unsmoother : R)
    (force : bool) (file : string) (rest : list string) (st : State)
    (e : exn) :
  is_ValueError e = false ->
  is_file (world st) (default_rename_fn output file) = false \/ force = true ->
  genfromtxt (world st) file = Raise e \/
  (exists data, genfromtxt (world st) file = Ok data /\
                splprep (transpose data) degree default_s = Raise e) ->
  for_each (file :: rest)
    (uniformize_item output num_points degree unsmoother force) st =
  (Raise e, st).
Proof.
  intros He Hrun Hfail. apply for_each_abort. unfold uniformize_item.
  apply try_except_other; [exact He|].
  destruct Hfail as [Hread|(data & Hread & Hfit)].
  - apply export_as_bspline_read_raises; assumption.
  - apply export_as_bspline_func_raises with data; try assumption.
    unfold lift. rewrite (fit_error_propagates _ _ _ _ _ _ Hfit). reflexivity.
Qed.

Lemma rerun_loop (output : string) (num_points degree : Z) (unsmoother : R)
    (files : list string) (st : State) :
  (forall f, In f files ->
     is_file (world st) (default_rename_fn output f) = true) ->
  for_each files (uniformize_item output num_points degree unsmoother false) st
  = (Ok tt, st).
Proof.
  induction files as [|f files IH]; intro Hall; [reflexivity|].
  rewrite for_each_skip.
  - apply IH. intros g Hg. apply Hall. now right.
  - unfold uniformize_item, try_except_ValueError.
    rewrite export_as_bspline_skip; [reflexivity|]. apply Hall. now left.
Qed.

(** Run without [--force] over a database whose files all have their
    target already, [uniformize] creates the output directory and does
    nothing else: no file is read, fitted or written. *)
Theorem rerun_without_force_changes_nothing
    (database output : string) (num_points degree : Z) (unsmoother : R)
    (st : State) (w1 : World) :
  mkdir (world st) output = Ok w1 ->
  is_dir w1 database = true ->
  (forall f, In f (glob w1 (database ++ "/*" ++ ".dat")%string) ->
     is_file w1 (default_rename_fn output f) = true) ->
  uniformize database output num_points degree unsmoother false st =
  (Ok tt, {| world := w1; stdout := stdout st |}).
Proof.
  intros Hmk Hdir Hall.
  unfold uniformize, bind, modify, list_files_in_directory.
  rewrite Hmk. simpl world. rewrite Hdir. simpl.
  apply rerun_loop. intros f Hf. simpl world. apply Hall.
  exact (Permutation_in _ (Permutation_sym (sorted_perm _)) Hf).
Qed.

(** The command stops before the first item when the output directory
    cannot be made or when the database is no directory; in the second
    case the output directory has been made all the same.  The script stops
    likewise when the output directory cannot be made, and when the
    database cannot be listed, whether the output directory was there or
    has just been made (it then stays). *)
Theorem drivers_stop_before_first_item
    (database output : string) (num_points degree : Z) (unsmoother : R)
    (force : bool) (a : BinBspline.args) (st : State) :
  (forall e, mkdir (world st) output = Raise e ->
     uniformize database output num_points degree unsmoother force st =
     (Raise e, st)) /\
  (forall w1, mkdir (world st) output = Ok w1 -> is_dir w1 database = false ->
     uniformize database output num_points degree unsmoother force st =
     (Raise TypeError, {| world := w1; stdout := stdout st |})) /\
  (forall e, path_exists (world st) (BinBspline.output a) = true ->
     listdir (world st) (BinBspline.database a) = Raise e ->
     BinBspline.main a st = (Raise e, st)) /\
  (forall e, path_exists (world st) (BinBspline.output a) = false ->
     makedirs (world st) (BinBspline.output a) = Raise e ->
     BinBspline.main a st = (Raise e, st)) /\
  (forall e w1, path_exists (world st) (BinBspline.output a) = false ->
     makedirs (world st) (BinBspline.output a) = Ok w1 ->
     listdir w1 (BinBspline.database a) = Raise e ->
     BinBspline.main a st = (Raise e, {| world := w1; stdout := stdout st |})).
Proof.
  split; [|split; [|split; [|split]]].
  - intros e Hmk. unfold uniformize, bind, modify. rewrite Hmk. reflexivity.
  - intros w1 Hmk Hdir.
    unfold uniformize, bind, modify, list_files_in_directory.
    rewrite Hmk. simpl world. rewrite Hdir. reflexivity.
  - intros e Hex Hls.
    unfold BinBspline.main, BinBspline.list_files_in_directory, bind, ask.
    rewrite Hex. simpl. rewrite Hls. reflexivity.
  - intros e Hex Hmk.
    unfold BinBspline.main, bind, modify. rewrite Hex. simpl.
    rewrite Hmk. reflexivity.
  - intros e w1 Hex Hmk Hls.
    unfold BinBspline.main, BinBspline.list_files_in_directory, bind, ask,
      modify.
    rewrite Hex. simpl. rewrite Hmk. simpl. rewrite Hls. reflexivity.
Qed.

(** After an export that returned, the target is a file and the same
    export without [force] does nothing, whatever [func] is given -- on a
    file system where a saved file exists afterwards. *)
Theorem export_then_skip (file output_dir : string)
    (func : ndarray -> M ndarray) (rename_fn : string -> string -> string)
    (force : bool) (st st1 : State) :
  (forall w p a fmt w', savetxt w p a fmt = Ok w' -> is_file w' p = true) ->
  export_as_bspline file output_dir func rename_fn force st = (Ok tt, st1) ->
  is_file (world st1) (rename_fn output_dir file) = true /\
  forall func',
    export_as_bspline file output_dir func' rename_fn false st1 = (Ok tt, st1).
Proof.
  intros Hlaw Hrun.
  assert (Hfile : is_file (world st1) (rename_fn output_dir file) = true).
  { unfold export_as_bspline in Hrun.
    destruct (is_file (world st) (rename_fn output_dir file)) eqn:Ef;
      destruct force; simpl in Hrun;
      try (injection Hrun as <-; exact Ef);
      unfold bind, ask, modify in Hrun;
      (destruct (genfromtxt (world st) file) as [data|]; [|discriminate]);
      (destruct (func (transpose data) st) as [[spline|] st2]; [|discriminate]);
      (destruct (savetxt (world st2) _ spline _) as [w'|] eqn:Es;
         [|discriminate]);
      injection Hrun as <-; simpl; exact (Hlaw _ _ _ _ _ Es). }
  split; [exact Hfile|].
  intro func'. apply export_as_bspline_skip. exact Hfile.
Qed.

(** A download that the server answers with a status other than 200 ends
    the export with [HTTPError]: the progress line is already printed and
    nothing is saved. *)
Theorem failed_download_saves_nothing (url output_dir : string)
    (force : bool) (st : State) (page : response) (w' : World) :
  let target := path_join output_dir (last_component url) in
  is_file (world st) target = false \/ force = true ->
  requests_get (world st) url = (Ok page, w') ->
  status_code page <> 200%Z ->
  export_airfoil_data url output_dir force st =
  (Raise HTTPError,
   {| world := w';
      stdout := stdout st ++ [("+ " ++ url ++ " -> " ++ target)%string] |}).
Proof.
  intros target Hrun Hget Hstatus.
  rewrite export_airfoil_data_run by exact Hrun. fold target.
  unfold bind, print, read_airfoil_data, bind, get_url_content. simpl.
  rewrite Hget.
  replace (status_code page =? 200)%Z with false
    by (symmetry; apply Z.eqb_neq; exact Hstatus).
  reflexivity.
Qed.

End BatchFacts.


Lemma other_exceptions_abort_batch_witness :
  let st := @Build_State disk_os [("db/b.dat", [[1; 2]; [3; 4]])] [] in
  @for_each disk_os string ["db/missing.dat"; "db/b.dat"]
    (@uniformize_item disk_os parabola_library "out" 192 3 50 false) st =
  (Raise OSError, st).
Proof.
  intro st.
  apply (@other_exceptions_abort_batch disk_os parabola_library).
  - reflexivity.
  - left. reflexivity.
  - left. reflexivity.
Defined.

Lemma rerun_without_force_changes_nothing_witness :
  let w := [("out/uniform_a.dat", [[7; 7]]); ("db/a.dat", [[1; 2]; [3]])] in
  @uniformize disk_os degenerate_library "db" "out" 192 3 50 false
    (@Build_State disk_os w []) = (Ok tt, @Build_State disk_os w []).
Proof.
  intro w.
  apply (@rerun_without_force_changes_nothing disk_os degenerate_library
           "db" "out" 192%Z 3%Z 50 (@Build_State disk_os w []) w).
  - reflexivity.
  - reflexivity.
  - intros f Hf. vm_compute in Hf. destruct Hf as [<-|[]]. reflexivity.
Defined.

Lemma drivers_stop_before_first_item_witness :
  let st := @Build_State disk_os [("db/a.dat", [[1; 2]])] [] in
  @uniformize disk_os parabola_library "nowhere" "out" 192 3 50 false st =
  (Raise TypeError, st) /\
  @BinBspline.main disk_os parabola_library BinBspline.default_args st =
  (Raise OSError, st).
Proof.
  intro st.
  destruct (@drivers_stop_before_first_item disk_os parabola_library
              "nowhere" "out" 192%Z 3%Z 50 false BinBspline.default_args st)
    as (_ & H & _ & _ & Hscript).
  split.
  - apply (H [("db/a.dat", [[1; 2]])]); reflexivity.
  - apply (Hscript OSError [("db/a.dat", [[1; 2]])]); reflexivity.
Defined.

Lemma export_then_skip_witness :
  let st := @Build_State disk_os [("db/a.dat", [[1; 2]; [3; 4]])] [] in
  let st1 := @Build_State disk_os
               [("out/uniform_a.dat", [[1; 3]; [2; 4]]);
                ("db/a.dat", [[1; 2]; [3; 4]])] [] in
  @export_as_bspline disk_os "db/a.dat" "out" (fun _ => raise OSError)
    default_rename_fn false st1 = (Ok tt, st1).
Proof.
  intros st st1.
  destruct (@export_then_skip disk_os "db/a.dat" "out" (fun a => ret a)
              default_rename_fn false st st1) as [_ H].
  - intros w p a fmt w' Hsave. injection Hsave as <-. simpl.
    rewrite String.eqb_refl. reflexivity.
  - reflexivity.
  - apply H.
Defined.

Lemma failed_download_saves_nothing_witness :
  let st := @Build_State disk_os [] [] in
  @export_airfoil_data disk_os "http://host/coord/e61.dat" "db" false st =
  (Raise HTTPError,
   @Build_State disk_os []
     ["+ http://host/coord/e61.dat -> db/e61.dat"]).
Proof.
  intro st.
  apply (@failed_download_saves_nothing disk_os "http://host/coord/e61.dat"
           "db" false st {| status_code := 404; content := EmptyString |} []).
  - left. reflexivity.
  - reflexivity.
  - discriminate.
Defined.

(** ** More on the resampling pipeline *)

Lemma nth_map_any {A B : Type} (f : A -> B) (l : list A) (d : A) (d' : B)
    (i : nat) :
  (i < length l)%nat -> nth i (map f l) d' = f (nth i l d).
Proof.
  intro Hi. rewrite (nth_indep _ d' (f d)) by (rewrite length_map; exact Hi).
  apply map_nth.
Qed.

(** The rows [np.array([xs, ys]).T] of two coordinate arrays computed from
    one parameter array. *)
Lemma transpose_curve (f g : R -> R) (u : array1) :
  transpose [map f u; map g u] = map (fun v => [f v; g v]) u.
Proof.
  unfold transpose. rewrite length_map.
  apply (nth_ext _ _ [] []).
  - rewrite !length_map, length_seq. reflexivity.
  - intros i Hi. rewrite length_map, length_seq in Hi.
    rewrite (nth_map_any _ (seq 0 (length u)) 0%nat [] i)
      by (rewrite length_seq; exact Hi).
    rewrite seq_nth by exact Hi. simpl Nat.add.
    rewrite (nth_map_any _ u 0 [] i Hi).
    simpl. rewrite !(nth_map_lt _ u 0 i Hi). reflexivity.
Qed.

Lemma resample_negative_count (curv_int uu : array1) (npoints : Z) :
  curv_int <> [] -> (npoints < 0)%Z ->
  resample curv_int uu npoints = Raise ValueError.
Proof.
  intros Hne Hn. unfold resample.
  destruct (np_max_ok curv_int Hne) as [m ->]. simpl exc_bind.
  unfold linspace.
  replace (npoints <? 0)%Z with true by (symmetry; apply Z.ltb_lt; exact Hn).
  reflexivity.
Qed.

Section PipelineFacts.

Context {fitpack : SplineLibrary}.

Lemma splev_refused (x : array1) (t : tck) (der : Z) :
  (degree t < der)%Z -> splev x t der = Raise ValueError.
Proof.
  intro H. unfold splev.
  replace (der <=? degree t)%Z with false by (symmetry; apply Z.leb_gt; exact H).
  rewrite andb_false_r. reflexivity.
Qed.

Lemma curvature_sample_low_degree (t : tck) (uu : array1) (smoother : R) :
  (degree t < 2)%Z -> curvature_sample t uu smoother = Raise ValueError.
Proof.
  intro Hk. unfold curvature_sample.
  destruct (splev uu t 1) as [[dx dy]|e] eqn:E1.
  - simpl. rewrite splev_refused by exact Hk. reflexivity.
  - unfold splev in E1.
    destruct ((0 <=? 1)%Z && (1 <=? degree t)%Z)%bool;
      [destruct uu; [|discriminate]|];
      injection E1 as <-; reflexivity.
Qed.

(** A negative number of points is refused with [ValueError], once the fit
    and the curvature have been computed. *)
Theorem negative_npoints_raises
    (original : ndarray) (npoints k : Z) (s smoother : R)
    (t : tck) (u : array1) :
  splprep original k s = Ok (t, u) -> u <> [] -> (2 <= degree t)%Z ->
  (npoints < 0)%Z ->
  curvature_based_bspline original npoints k s smoother = Raise ValueError.
Proof.
  intros Hfit Hu Hk Hnp. unfold curvature_based_bspline.
  rewrite Hfit. simpl exc_bind.
  destruct (fine_discrete_space_ok u Hu) as (uu & -> & Huu). simpl exc_bind.
  destruct (curvature_sample_ok t uu smoother Hk
              (length_1000_nonempty uu Huu)) as (curv & -> & Hcurv).
  simpl exc_bind.
  assert (Hne : curv <> []).
  { intro H. rewrite H in Hcurv. simpl in Hcurv. lia. }
  rewrite (cumtrapz_ok curv uu (eq_sym Hcurv) Hne). simpl exc_bind.
  rewrite resample_negative_count; [reflexivity|discriminate|exact Hnp].
Qed.

(** A fitted spline of degree below 2 has no second derivative to evaluate:
    the function raises [ValueError] whatever the samples. *)
Theorem low_degree_raises
    (original : ndarray) (npoints k : Z) (s smoother : R)
    (t : tck) (u : array1) :
  splprep original k s = Ok (t, u) -> u <> [] -> (degree t < 2)%Z ->
  curvature_based_bspline original npoints k s smoother = Raise ValueError.
Proof.
  intros Hfit Hu Hk. unfold curvature_based_bspline.
  rewrite Hfit. simpl exc_bind.
  destruct (fine_discrete_space_ok u Hu) as (uu & -> & Huu). simpl exc_bind.
  rewrite curvature_sample_low_degree by exact Hk. reflexivity.
Qed.

End PipelineFacts.

Lemma negative_npoints_raises_witness :
  @curvature_based_bspline parabola_library [[0; 1]; [0; 1]] (-1) 3
    default_s default_smoother = Raise ValueError.
Proof.
  apply (@negative_npoints_raises parabola_library _ _ _ _ _ tt [0; 1]).
  - reflexivity.
  - discriminate.
  - simpl. lia.
  - lia.
Defined.

Lemma low_degree_raises_witness :
  @curvature_based_bspline polyline_library [[0; 1]; [0; 1]] 200 1
    default_s default_smoother = Raise ValueError.
Proof.
  apply (@low_degree_raises polyline_library _ _ _ _ _ tt [0; 1]).
  - reflexivity.
  - discriminate.
  - simpl. lia.
Defined.

Lemma fine_discrete_space_grid (u : array1) (lo hi : R) :
  np_min u = Ok lo -> np_max u = Ok hi -> lo < hi ->
  exists uu,
    fine_discrete_space u = Ok uu /\ length uu = 1000%nat /\
    strictly_increasing uu /\
    nth 0 uu 0 = lo /\ nth (length uu - 1) uu 0 = hi /\
    (forall v, In v uu -> lo <= v <= hi).
Proof.
  intros Hlo Hhi Hlt. unfold fine_discrete_space. rewrite Hlo, Hhi.
  simpl exc_bind.
  destruct (linspace_ok lo hi 1000 ltac:(lia)) as [uu Huu].
  exists uu. split; [exact Huu|].
  pose proof (linspace_length _ _ _ _ Huu) as Hlen.
  split; [lia|].
  split; [exact (linspace_strictly_increasing _ _ _ _ Hlt Huu)|].
  split; [exact (linspace_first lo hi 1000 uu ltac:(lia) Huu)|].
  split; [exact (linspace_last lo hi 1000 uu ltac:(lia) Huu)|].
  intros v Hv. apply (In_nth _ _ 0) in Hv. destruct Hv as (i & Hi & <-).
  exact (linspace_nth_bounds _ _ _ _ i (Rlt_le _ _ Hlt) Huu Hi).
Qed.

Lemma regular_maps (f g : R -> R) (uu : array1) :
  (forall v, In v uu -> ~ (f v = 0 /\ g v = 0)) ->
  regular (map f uu) (map g uu).
Proof.
  induction uu as [|v uu IH]; intro H; simpl; [exact I|].
  split; [apply H; now left|]. apply IH. intros w Hw. apply H. now right.
Qed.

(** On a curve whose velocity vanishes nowhere, with a positive bias and one
    point or more asked for, the rows returned are points of the fitted
    curve, taken at parameters that never go backwards and stay within the
    parameter range; the first row is the start of the curve and, from two
    points on, the last row is its end. *)
Theorem output_follows_the_curve {fitpack : SplineLibrary}
    (original : ndarray) (npoints k : Z) (s smoother : R)
    (t : tck) (u : array1) (lo hi : R) :
  splprep original k s = Ok (t, u) ->
  np_min u = Ok lo -> np_max u = Ok hi -> lo < hi ->
  (2 <= degree t)%Z -> 0 < smoother -> (1 <= npoints)%Z ->
  (forall v, lo <= v <= hi ->
     ~ (fst (splev_at t 1 v) = 0 /\ snd (splev_at t 1 v) = 0)) ->
  exists u_new,
    curvature_based_bspline original npoints k s smoother =
    Ok (map (fun v => [fst (splev_at t 0 v); snd (splev_at t 0 v)]) u_new) /\
    Z.of_nat (length u_new) = npoints /\
    non_decreasing u_new /\
    (forall i, (i < length u_new)%nat -> lo <= nth i u_new 0 <= hi) /\
    nth 0 u_new 0 = lo /\
    ((2 <= npoints)%Z -> nth (length u_new - 1) u_new 0 = hi).
Proof.
  intros Hfit Hlo Hhi Hlt Hk Hs Hnp1 Hreg.
  assert (Hnp : (0 <= npoints)%Z) by lia.
  destruct (fine_discrete_space_grid u lo hi Hlo Hhi Hlt)
    as (uu & Hgrid & Hlen & Hinc & Hfirst & Hlast & Hrange).
  destruct (curvature_sample_ok t uu smoother Hk
              (length_1000_nonempty uu Hlen)) as (curv & Hcurv & Hcl).
  pose proof (curvature_sample_inv _ _ _ _ Hcurv) as Hcv.
  assert (Hpos : Forall (fun c => 0 < c) curv).
  { rewrite Hcv. apply curv_array_positive; [|exact Hs].
    apply regular_maps. intros v Hv. apply Hreg, Hrange, Hv. }
  assert (Hne : curv <> []).
  { intro H. rewrite H in Hcl. simpl in Hcl. lia. }
  destruct (cumtrapz_ascending curv uu Hcl Hne
              (strictly_increasing_ascending uu Hinc) Hpos)
    as (ci & Hci & Hcil & Hci0 & Hciinc).
  destruct (resample_properties ci uu npoints Hciinc Hci0 Hinc Hcil
              ltac:(lia) Hnp)
    as (u_new & Hres & Hnl & Hnd & Hbnd & Hb & He).
  exists u_new. rewrite Hfirst, Hlast in *.
  split;
    [|repeat split;
      assumption || (intros; apply Hbnd; assumption) || exact (Hb Hnp1)].
  assert (Hnew : u_new <> []).
  { intro H. rewrite H in Hnl. simpl in Hnl. lia. }
  unfold curvature_based_bspline. rewrite Hfit. simpl exc_bind.
  rewrite Hgrid. simpl exc_bind. rewrite Hcurv. simpl exc_bind.
  rewrite Hci. simpl exc_bind. rewrite Hres. simpl exc_bind.
  rewrite splev_ok by (lia || exact Hnew). simpl exc_bind. apply f_equal.
  exact (transpose_curve (fun v => fst (splev_at t 0 v))
           (fun v => snd (splev_at t 0 v)) u_new).
Qed.

Lemma output_follows_the_curve_witness :
  exists u_new,
    @curvature_based_bspline parabola_library [[0; 1]; [0; 1]] 5 3
      default_s default_smoother =
    Ok (map (fun v => [v; v * v]) u_new) /\
    nth 0 u_new 0 = Rmin 0 1 /\ nth (length u_new - 1) u_new 0 = Rmax 0 1.
Proof.
  destruct (@output_follows_the_curve parabola_library
              [[0; 1]; [0; 1]] 5 3 default_s default_smoother tt [0; 1]
              (Rmin 0 1) (Rmax 0 1))
    as (u_new & Hrun & _ & _ & _ & Hb & He).
  - reflexivity.
  - reflexivity.
  - reflexivity.
  - unfold Rmin, Rmax. destruct (Rle_dec 0 1); lra.
  - simpl. lia.
  - unfold default_smoother. lra.
  - lia.
  - intros v _ [H _]. simpl in H. lra.
  - exists u_new. split; [exact Hrun|]. split; [exact Hb | apply He; lia].
Defined.

(** The running integral of a constant sample is the constant times the
    distance from the start of the grid. *)
Lemma cumsum_from_constant (c acc : R) (y x : array1) (j : nat) :
  length x = length y -> Forall (fun v => v = c) y -> (j < length x)%nat ->
  nth j (acc :: cumsum_from acc (trapezoids y x)) 0 =
  acc + c * (nth j x 0 - nth 0 x 0).
Proof.
  revert acc y j. induction x as [|a [|b x] IH]; intros acc y j Hlen Hy Hj;
    simpl in Hj; try lia.
  - destruct j; [|lia]. simpl. ring.
  - destruct y as [|c1 [|c2 y]]; try discriminate.
    pose proof (Forall_inv Hy) as H1. pose proof (Forall_inv_tail Hy) as Hy'.
    pose proof (Forall_inv Hy') as H2. simpl in H1, H2. subst c1 c2.
    rewrite trapezoids_cons. destruct j as [|j]; [simpl; ring|].
    change (nth (S j) (acc :: cumsum_from acc
              ((b - a) * (c + c) / 2 :: trapezoids (c :: y) (b :: x))) 0)
      with (nth j ((acc + (b - a) * (c + c) / 2)
                   :: cumsum_from (acc + (b - a) * (c + c) / 2)
                        (trapezoids (c :: y) (b :: x))) 0).
    rewrite (IH _ (c :: y) j); [|simpl in *; lia|exact Hy'|simpl in *; lia].
    change (nth (S j) (a :: b :: x) 0) with (nth j (b :: x) 0).
    change (nth 0 (b :: x) 0) with b. change (nth 0 (a :: b :: x) 0) with a.
    field.
Qed.

Lemma cumtrapz_constant (c : R) (y x : array1) (j : nat) :
  length x = length y -> Forall (fun v => v = c) y -> (j < length x)%nat ->
  nth j (0 :: cumsum (trapezoids y x)) 0 = c * (nth j x 0 - nth 0 x 0).
Proof.
  intros Hlen Hy Hj. destruct x as [|a [|b x]]; simpl in Hj; try lia.
  - destruct j; [|lia]. simpl. ring.
  - destruct y as [|c1 [|c2 y]]; try discriminate.
    pose proof (Forall_inv Hy) as H1. pose proof (Forall_inv_tail Hy) as Hy'.
    pose proof (Forall_inv Hy') as H2. simpl in H1, H2. subst c1 c2.
    rewrite trapezoids_cons. destruct j as [|j]; [simpl; ring|].
    change (nth (S j) (0 :: cumsum
              ((b - a) * (c + c) / 2 :: trapezoids (c :: y) (b :: x))) 0)
      with (nth j (((b - a) * (c + c) / 2)
                   :: cumsum_from ((b - a) * (c + c) / 2)
                        (trapezoids (c :: y) (b :: x))) 0).
    rewrite (cumsum_from_constant c _ (c :: y) (b :: x) j);
      [|simpl in *; lia|exact Hy'|simpl in *; lia].
    change (nth (S j) (a :: b :: x) 0) with (nth j (b :: x) 0).
    change (nth 0 (b :: x) 0) with b. change (nth 0 (a :: b :: x) 0) with a.
    field.
Qed.

Lemma linspace_entry (start stop : R) (num : Z) (y : array1) (i : nat) :
  linspace start stop num = Ok y -> (i < length y)%nat ->
  exists ratio, 0 <= ratio <= 1 /\
    nth i y 0 = start + ratio * (stop - start) /\
    forall start' stop' y', linspace start' stop' num = Ok y' ->
      nth i y' 0 = start' + ratio * (stop' - start').
Proof.
  intros Hy Hi.
  pose proof (linspace_length _ _ _ _ Hy) as Hlen.
  destruct (count_cases num) as [->|[->|[n ->]]]; [lia| | |].
  - simpl in Hlen. lia.
  - exists 0. split; [lra|].
    assert (i = 0%nat) by lia. subst i. split.
    + rewrite linspace_one in Hy. apply Ok_inj in Hy. subst y. simpl. ring.
    + intros start' stop' y' Hy'. rewrite linspace_one in Hy'.
      apply Ok_inj in Hy'. subst y'. simpl. ring.
  - exists (INR i / INR (S n)).
    split; [apply INR_ratio_bounds; lia|].
    assert (Hn : INR (S n) <> 0) by (apply not_0_INR; lia).
    split.
    + rewrite (linspace_nth _ _ n i y Hy) by lia. field. exact Hn.
    + intros start' stop' y' Hy'.
      rewrite (linspace_nth _ _ n i y' Hy') by lia. field. exact Hn.
Qed.

(** Where the curvature sample is constant (a circle, a straight run), the
    new parameters are evenly spaced over the parameter range: the step
    returns [linspace(u_min, u_max, npoints)]. *)
Theorem constant_curvature_resamples_uniformly
    (curv uu : array1) (c : R) (npoints : Z) :
  strictly_increasing uu -> (2 <= length uu)%nat ->
  length curv = length uu -> Forall (fun v => v = c) curv -> 0 < c ->
  (0 <= npoints)%Z ->
  exists curv_int,
    cumtrapz curv uu = Ok curv_int /\
    resample curv_int uu npoints =
    linspace (nth 0 uu 0) (nth (length uu - 1) uu 0) npoints.
Proof.
  intros Hinc Hn Hlen Hc Hpos Hnp.
  assert (Hne : curv <> []).
  { intro H. rewrite H in Hlen. simpl in Hlen. lia. }
  assert (Hcpos : Forall (fun v => 0 < v) curv).
  { apply Forall_forall. intros v Hv. rewrite Forall_forall in Hc.
    rewrite (Hc v Hv). exact Hpos. }
  destruct (cumtrapz_ascending curv uu Hlen Hne
              (strictly_increasing_ascending uu Hinc) Hcpos)
    as (ci & Hci & Hcil & Hci0 & Hciinc).
  exists ci. split; [exact Hci|].
  assert (Hval : forall j, (j < length uu)%nat ->
                   nth j ci 0 = c * (nth j uu 0 - nth 0 uu 0)).
  { intros j Hj. rewrite (cumtrapz_ok curv uu (eq_sym Hlen) Hne) in Hci.
    apply Ok_inj in Hci. subst ci.
    apply cumtrapz_constant; [symmetry; exact Hlen|exact Hc|exact Hj]. }
  destruct (resample_entries ci uu npoints Hciinc Hci0 Hinc Hcil Hn Hnp)
    as (targets & u_new & Ht & Hr & Hlu & Hlt & Hrange & Hnth).
  rewrite Hr.
  destruct (linspace_ok (nth 0 uu 0) (nth (length uu - 1) uu 0) npoints Hnp)
    as [lin Hlin]. rewrite Hlin. f_equal.
  pose proof (linspace_length _ _ _ _ Hlin) as Hll.
  apply (nth_ext _ _ 0 0); [lia|].
  intros i Hi. rewrite Hnth by lia.
  destruct (linspace_entry _ _ _ _ i Ht ltac:(lia)) as (ratio & Hr01 & Hti & Hany).
  rewrite (Hany _ _ _ Hlin). rewrite Hti.
  set (total := nth (length ci - 1) ci 0) in *.
  assert (Htot : total = c * (nth (length uu - 1) uu 0 - nth 0 uu 0)).
  { unfold total. rewrite Hcil. apply Hval. lia. }
  assert (Hin : 0 <= 0 + ratio * (total - 0) <= total).
  { rewrite <- Hti. apply Hrange, nth_In. lia. }
  destruct (segment_exists ci (0 + ratio * (total - 0)) Hciinc ltac:(lia)
              ltac:(rewrite Hci0; fold total; exact Hin)) as (j & Hj & Hjv).
  rewrite (call_linear_segment ci uu _ j Hciinc Hj Hjv).
  rewrite (Hval j) by lia. rewrite (Hval (j - 1)%nat) by lia.
  rewrite Htot.
  pose proof (Hinc (j - 1)%nat j ltac:(lia)) as Hstep.
  assert (Hden : 0 < c * (nth j uu 0 - nth (j - 1) uu 0))
    by (apply Rmult_lt_0_compat; lra).
  field. lra.
Qed.

Lemma constant_curvature_resamples_uniformly_witness :
  exists curv_int,
    cumtrapz [10; 10; 10] [0; 1; 3] = Ok curv_int /\
    resample curv_int [0; 1; 3] 4 = linspace 0 3 4.
Proof.
  destruct (constant_curvature_resamples_uniformly
              [10; 10; 10] [0; 1; 3] 10 4) as (ci & Hci & Hres).
  - apply ascending_strictly_increasing. simpl. repeat split; lra.
  - simpl. lia.
  - reflexivity.
  - repeat constructor.
  - lra.
  - lia.
  - exists ci. split; [exact Hci | exact Hres].
Defined.

(** ** More on the scraper *)

Lemma matches_pattern_alphabet (line g1 g2 : text) (c : N) :
  matches_pattern line g1 g2 -> In c line ->
  is_space c = true \/ is_digit_dot_minus c = true.
Proof.
  intros (s1 & s2 & s3 & -> & Hs1 & _ & Hd1 & _ & Hs2 & _ & Hd2 & Hs3) Hc.
  rewrite forallb_forall in Hs1, Hd1, Hs2, Hd2, Hs3.
  repeat (apply in_app_or in Hc; destruct Hc as [Hc|Hc]); auto.
  right. apply digit_dot_is_digit_dot_minus. auto.
Qed.

(** A line that holds any character other than a blank, a digit, a dot or a
    minus sign is dropped: a header, a comma, a plus sign, an exponent. *)
Theorem line_with_other_characters_is_dropped (line : text) (c : N) :
  In c line -> is_space c = false -> is_digit_dot_minus c = false ->
  SEARCH_PATTERN line = None /\
  forall page_content, ~ In line (kept_lines page_content).
Proof.
  intros Hc Hsp Hdd.
  assert (Hnone : SEARCH_PATTERN line = None).
  { destruct (SEARCH_PATTERN line) as [groups|] eqn:E; [|reflexivity].
    destruct (SEARCH_PATTERN_two_groups line groups E) as (g1 & g2 & _ & Hm).
    destruct (matches_pattern_alphabet line g1 g2 c Hm Hc) as [H|H];
      congruence. }
  split; [exact Hnone|].
  intros page_content Hin. unfold kept_lines in Hin.
  apply filter_In in Hin. destruct Hin as [_ Hin].
  rewrite Hnone in Hin. discriminate.
Qed.

Lemma line_with_other_characters_is_dropped_witness :
  SEARCH_PATTERN (str "1.0e-3 2.5") = None.
Proof.
  destruct (line_with_other_characters_is_dropped (str "1.0e-3 2.5") 101)
    as [H _].
  - vm_compute. tauto.
  - reflexivity.
  - reflexivity.
  - exact H.
Defined.

Lemma parse_float_error (g : text) (e : exn) :
  parse_float g = Raise e -> e = ValueError.
Proof.
  unfold parse_float.
  destruct (match g with
            | [] => parse_unsigned g
            | c :: u =>
                if (c =? 45)%N then option_map Qopp (parse_unsigned u)
                else if (c =? 43)%N then parse_unsigned u
                else parse_unsigned g
            end); [discriminate|].
  intro H. injection H as <-. reflexivity.
Qed.

Lemma parse_row_error (groups : list text) (e : exn) :
  parse_row groups = Raise e -> e = ValueError.
Proof.
  induction groups as [|g r IH]; simpl; [discriminate|].
  destruct (parse_float g) as [q|e'] eqn:E; simpl.
  - destruct (parse_row r) as [row|e'']; simpl; [discriminate|].
    intro H. injection H as <-. apply IH. reflexivity.
  - intro H. injection H as <-. exact (parse_float_error g e' E).
Qed.

Lemma parse_rows_error (rows : list (list text)) (e : exn) :
  parse_rows rows = Raise e -> e = ValueError.
Proof.
  induction rows as [|g r IH]; simpl; [discriminate|].
  destruct (parse_row g) as [row|e'] eqn:E; simpl.
  - destruct (parse_rows r) as [rest|e'']; simpl; [discriminate|].
    intro H. injection H as <-. apply IH. reflexivity.
  - intro H. injection H as <-. exact (parse_row_error g e' E).
Qed.

Lemma matched_groups_pairs (page_content : list text) :
  Forall (fun groups => length groups = 2%nat)
         (matched_groups SEARCH_PATTERN page_content).
Proof.
  induction page_content as [|line r IH]; simpl; [constructor|].
  destruct (SEARCH_PATTERN line) as [groups|] eqn:E; [|exact IH].
  constructor; [|exact IH].
  destruct (SEARCH_PATTERN_two_groups line groups E) as (g1 & g2 & -> & _).
  reflexivity.
Qed.

Lemma asarray_float32_pairs (rows : list (list text)) :
  Forall (fun groups => length groups = 2%nat) rows ->
  asarray_float32 rows = parse_rows rows.
Proof.
  intro H. unfold asarray_float32. destruct rows as [|g r]; [reflexivity|].
  replace (forallb (fun r0 => (length r0 =? length g)%nat) (g :: r)) with true;
    [reflexivity|].
  symmetry. apply forallb_forall. intros x Hx.
  rewrite Forall_forall in H. rewrite (H x Hx), (H g (or_introl eq_refl)).
  reflexivity.
Qed.

Lemma Forall2_left_witness {A B : Type} (P : A -> B -> Prop)
    (l : list A) (l' : list B) (x : A) :
  Forall2 P l l' -> In x l -> exists y, P x y.
Proof.
  induction 1 as [|a b l l' Hab _ IH]; intro Hx; [contradiction|].
  destruct Hx as [<-|Hx]; [exists b; exact Hab | apply IH, Hx].
Qed.

Lemma matches_pattern_groups_unique (line g1 g2 h1 h2 : text) :
  matches_pattern line g1 g2 -> matches_pattern line h1 h2 ->
  g1 = h1 /\ g2 = h2.
Proof.
  intros Hg Hh. apply SEARCH_PATTERN_matches in Hg, Hh.
  rewrite Hg in Hh. injection Hh as <- <-. split; reflexivity.
Qed.

(** Lines are converted after they are selected: one kept line whose field is
    no number ([1.2.3], a lone dot or minus) makes the conversion of the
    whole page raise [ValueError]. *)
Lemma malformed_field_fails_conversion (page_content : list text)
    (line g1 g2 : text) :
  In line page_content -> matches_pattern line g1 g2 ->
  parse_float g1 = Raise ValueError \/ parse_float g2 = Raise ValueError ->
  asarray_float32 (matched_groups SEARCH_PATTERN page_content) =
  Raise ValueError.
Proof.
  intros Hin Hm Hbad.
  rewrite asarray_float32_pairs by apply matched_groups_pairs.
  destruct (parse_rows (matched_groups SEARCH_PATTERN page_content))
    as [rows|e] eqn:E.
  - exfalso. pose proof (parse_rows_of_kept_lines _ _ E) as Hrows.
    assert (Hkept : In line (kept_lines page_content)).
    { unfold kept_lines. apply filter_In. split; [exact Hin|].
      apply SEARCH_PATTERN_matches in Hm. rewrite Hm. reflexivity. }
    destruct (Forall2_left_witness _ _ _ line Hrows Hkept)
      as (row & h1 & h2 & q1 & q2 & Hm' & H1 & H2 & _).
    destruct (matches_pattern_groups_unique _ _ _ _ _ Hm Hm') as [-> ->].
    destruct Hbad as [Hbad|Hbad]; congruence.
  - f_equal. exact (parse_rows_error _ _ E).
Qed.

Lemma parse_rows_total (page_content : list text) :
  (forall line g1 g2, In line page_content -> matches_pattern line g1 g2 ->
     (exists q1, parse_float g1 = Ok q1) /\
     (exists q2, parse_float g2 = Ok q2)) ->
  exists rows,
    parse_rows (matched_groups SEARCH_PATTERN page_content) = Ok rows.
Proof.
  induction page_content as [|line r IH]; intro Hall; simpl.
  - eexists. reflexivity.
  - destruct IH as [rest Hrest].
    { intros l g1 g2 Hl. apply Hall. now right. }
    destruct (SEARCH_PATTERN line) as [groups|] eqn:E;
      [|exists rest; exact Hrest].
    destruct (SEARCH_PATTERN_two_groups line groups E) as (g1 & g2 & -> & Hm).
    destruct (Hall line g1 g2 (or_introl eq_refl) Hm) as [[q1 H1] [q2 H2]].
    exists ([Q2R q1; Q2R q2] :: rest).
    change (parse_rows ([g1; g2] :: matched_groups SEARCH_PATTERN r))
      with (row <- parse_row [g1; g2] ;;
            rest <- parse_rows (matched_groups SEARCH_PATTERN r) ;;
            Ok (row :: rest))%exc.
    simpl parse_row. rewrite H1, H2. simpl exc_bind. rewrite Hrest.
    reflexivity.
Qed.

Section ScraperFacts.

Context {os : OS}.

Lemma read_airfoil_data_run (url : string) (st st' : State) (page : bytes)
    (decoded : text) :
  get_url_content url st = (Ok page, st') -> decode page = Ok decoded ->
  read_airfoil_data url SEARCH_PATTERN st =
  (asarray_float32 (matched_groups SEARCH_PATTERN (splitlines decoded)), st').
Proof.
  intros Hget Hdec. unfold read_airfoil_data, bind, lift.
  rewrite Hget, Hdec. reflexivity.
Qed.

(** A page with one kept line that holds a field which is no number makes
    [read_airfoil_data] raise [ValueError]: the line is neither dropped nor
    read. *)
Theorem malformed_number_raises (url : string) (st st' : State)
    (page : bytes) (decoded line g1 g2 : text) :
  get_url_content url st = (Ok page, st') -> decode page = Ok decoded ->
  In line (splitlines decoded) -> matches_pattern line g1 g2 ->
  parse_float g1 = Raise ValueError \/ parse_float g2 = Raise ValueError ->
  read_airfoil_data url SEARCH_PATTERN st = (Raise ValueError, st').
Proof.
  intros Hget Hdec Hin Hm Hbad.
  rewrite (read_airfoil_data_run url st st' page decoded Hget Hdec).
  rewrite (malformed_field_fails_conversion _ line g1 g2 Hin Hm Hbad).
  reflexivity.
Qed.

(** When every field of every kept line is a number, [read_airfoil_data]
    returns, with one row per kept line; a page without a matching line
    gives the empty array. *)
Theorem well_formed_page_is_read (url : string) (st st' : State)
    (page : bytes) (decoded : text) :
  get_url_content url st = (Ok page, st') -> decode page = Ok decoded ->
  (forall line g1 g2, In line (splitlines decoded) ->
     matches_pattern line g1 g2 ->
     (exists q1, parse_float g1 = Ok q1) /\
     (exists q2, parse_float g2 = Ok q2)) ->
  exists rows,
    read_airfoil_data url SEARCH_PATTERN st = (Ok rows, st') /\
    length rows = length (kept_lines (splitlines decoded)) /\
    (kept_lines (splitlines decoded) = [] -> rows = []).
Proof.
  intros Hget Hdec Hall.
  destruct (parse_rows_total (splitlines decoded) Hall) as [rows Hrows].
  exists rows.
  rewrite (read_airfoil_data_run url st st' page decoded Hget Hdec).
  rewrite asarray_float32_pairs by apply matched_groups_pairs.
  rewrite Hrows. split; [reflexivity|].
  pose proof (parse_rows_of_kept_lines _ _ Hrows) as H2.
  split.
  - symmetry. exact (Forall2_length H2).
  - intro Hnil. rewrite Hnil in H2. inversion H2. reflexivity.
Qed.

End ScraperFacts.

Lemma malformed_number_raises_witness :
  let st := @Build_State (memory_os malformed_page) [] [] in
  @read_airfoil_data (memory_os malformed_page) "x/e61.dat" SEARCH_PATTERN st =
  (Raise ValueError, st).
Proof.
  intro st.
  apply (@malformed_number_raises (memory_os malformed_page) "x/e61.dat"
           st st malformed_page (str malformed_page)
           (str " 1.2.3  0.001260") (str "1.2.3") (str "0.001260")).
  - reflexivity.
  - reflexivity.
  - vm_compute. tauto.
  - apply SEARCH_PATTERN_matches. reflexivity.
  - left. reflexivity.
Defined.

Lemma well_formed_page_is_read_witness :
  let st := @Build_State sample_os [] [] in
  exists rows,
    @read_airfoil_data sample_os "x/naca0012.dat" SEARCH_PATTERN st =
    (Ok rows, st) /\ length rows = 2%nat.
Proof.
  intro st.
  destruct (@well_formed_page_is_read sample_os "x/naca0012.dat" st st
              sample_page (str sample_page)) as (rows & Hrun & Hlen & _).
  - reflexivity.
  - reflexivity.
  - intros line g1 g2 Hin Hm. apply SEARCH_PATTERN_matches in Hm.
    vm_compute in Hin.
    destruct Hin as [<-|[<-|[<-|[<-|[]]]]]; vm_compute in Hm;
      try discriminate; injection Hm as <- <-;
      split; eexists; reflexivity.
  - exists rows. split; [exact Hrun|]. rewrite Hlen. reflexivity.
Defined.

(** ** Blanks around a line *)

Lemma forallb_rev (p : N -> bool) (l : text) :
  forallb p (rev l) = forallb p l.
Proof.
  destruct (forallb p l) eqn:E.
  - apply forallb_forall. intros c Hc. apply in_rev in Hc.
    rewrite forallb_forall in E. apply E, Hc.
  - destruct (forallb p (rev l)) eqn:E'; [|reflexivity].
    rewrite <- E. symmetry. apply forallb_forall. intros c Hc.
    rewrite forallb_forall in E'. apply E'. rewrite <- in_rev. exact Hc.
Qed.

(** Two runs of blanks in front of the same text that starts with a
    character which is no blank. *)
Lemma blank_runs_nest (x y p q : text) :
  forallb is_space x = true -> stops is_space q -> q <> [] ->
  x ++ p = y ++ q -> exists z, y = x ++ z /\ p = z ++ q.
Proof.
  revert y. induction x as [|c x IH]; intros y Hx Hq Hne Heq.
  - exists y. split; [reflexivity | exact Heq].
  - simpl in Hx. apply andb_true_iff in Hx. destruct Hx as [Hc Hx].
    destruct y as [|c' y].
    + destruct q as [|d q]; [contradiction|]. simpl in Heq, Hq.
      injection Heq as <- _. congruence.
    + simpl in Heq. injection Heq as <- Heq.
      destruct (IH y Hx Hq Hne Heq) as (z & -> & Hp).
      exists z. split; [reflexivity | exact Hp].
Qed.

Lemma matches_pattern_pad (line ws ws' g1 g2 : text) :
  forallb is_space ws = true -> forallb is_space ws' = true ->
  matches_pattern line g1 g2 -> matches_pattern (ws ++ line ++ ws') g1 g2.
Proof.
  intros Hws Hws' (s1 & s2 & s3 & -> & Hs1 & Hg1 & Hd1 & Hs2 & Hw2 & Hg2 & Hd2 & Hs3).
  exists (ws ++ s1), s2, (s3 ++ ws').
  rewrite !forallb_app, Hws, Hws', Hs1, Hs3.
  repeat split; try assumption.
  rewrite <- !app_assoc. reflexivity.
Qed.

Lemma matches_pattern_unpad_left (line ws g1 g2 : text) :
  forallb is_space ws = true ->
  matches_pattern (ws ++ line) g1 g2 -> matches_pattern line g1 g2.
Proof.
  intros Hws (s1 & s2 & s3 & Heq & Hs1 & Hg1 & Hd1 & Hs2 & Hw2 & Hg2 & Hd2 & Hs3).
  destruct (blank_runs_nest ws s1 line (g1 ++ s2 ++ g2 ++ s3) Hws)
    as (z & -> & ->); [| |exact Heq|].
  - apply nonempty_stops with is_digit_dot; auto.
    intros c Hc. apply digit_dot_minus_not_space,
      digit_dot_is_digit_dot_minus, Hc.
  - destruct g1; [contradiction|discriminate].
  - rewrite forallb_app in Hs1. apply andb_true_iff in Hs1.
    exists z, s2, s3. repeat split; try assumption. apply Hs1.
Qed.

Lemma matches_pattern_unpad_right (line ws' g1 g2 : text) :
  forallb is_space ws' = true ->
  matches_pattern (line ++ ws') g1 g2 -> matches_pattern line g1 g2.
Proof.
  intros Hws (s1 & s2 & s3 & Heq & Hs1 & Hg1 & Hd1 & Hs2 & Hw2 & Hg2 & Hd2 & Hs3).
  assert (Hrev : rev ws' ++ rev line =
                 rev s3 ++ rev (s1 ++ g1 ++ s2 ++ g2)).
  { rewrite <- !rev_app_distr. f_equal. rewrite Heq.
    rewrite <- !app_assoc. reflexivity. }
  destruct (exists_last Hg2) as (g2' & c & Hlast).
  assert (Hc : is_space c = false).
  { apply digit_dot_minus_not_space. rewrite forallb_forall in Hd2.
    apply Hd2. rewrite Hlast. apply in_or_app. right. now left. }
  assert (Hshape : rev (s1 ++ g1 ++ s2 ++ g2) =
                   c :: rev (s1 ++ g1 ++ s2 ++ g2')).
  { rewrite Hlast, !app_assoc, rev_app_distr. reflexivity. }
  destruct (blank_runs_nest (rev ws') (rev s3) (rev line)
              (rev (s1 ++ g1 ++ s2 ++ g2))) as (z & Hz & Hline).
  - rewrite forallb_rev. exact Hws.
  - rewrite Hshape. exact Hc.
  - rewrite Hshape. discriminate.
  - exact Hrev.
  - exists s1, s2, (rev z).
    assert (Hs3z : s3 = rev z ++ ws').
    { rewrite <- (rev_involutive s3), Hz, rev_app_distr, rev_involutive.
      reflexivity. }
    repeat split; try assumption.
    + rewrite <- (rev_involutive line), Hline, rev_app_distr, rev_involutive.
      rewrite <- !app_assoc. reflexivity.
    + rewrite Hs3z, forallb_app in Hs3. apply andb_true_iff in Hs3. apply Hs3.
Qed.

(** Blanks before and after a line change neither whether it is kept nor
    the two fields read from it. *)
Theorem surrounding_blanks_are_ignored (line ws ws' : text) :
  forallb is_space ws = true -> forallb is_space ws' = true ->
  SEARCH_PATTERN (ws ++ line ++ ws') = SEARCH_PATTERN line.
Proof.
  intros Hws Hws'.
  destruct (SEARCH_PATTERN line) as [groups|] eqn:E.
  - destruct (SEARCH_PATTERN_two_groups line groups E) as (g1 & g2 & -> & Hm).
    apply SEARCH_PATTERN_matches, matches_pattern_pad; assumption.
  - destruct (SEARCH_PATTERN (ws ++ line ++ ws')) as [groups|] eqn:E';
      [|reflexivity].
    destruct (SEARCH_PATTERN_two_groups _ groups E') as (g1 & g2 & _ & Hm).
    apply matches_pattern_unpad_left in Hm; [|exact Hws].
    apply matches_pattern_unpad_right in Hm; [|exact Hws'].
    apply SEARCH_PATTERN_matches in Hm. congruence.
Qed.

Lemma surrounding_blanks_are_ignored_witness :
  SEARCH_PATTERN (str "   " ++ str "0.5 -0.1" ++ str "  ") =
  SEARCH_PATTERN (str "0.5 -0.1").
Proof.
  apply surrounding_blanks_are_ignored; reflexivity.
Defined.

(** ** What a successful item leaves behind *)

Section SuccessFacts.

Context {os : OS} {fitpack : SplineLibrary}.



(** A download answered with status 200 whose kept lines all convert is
    saved under the last component of the URL: one progress line is
    printed, and the rows saved have a first column that is not negative. *)
Theorem successful_download_is_saved (url output_dir : string)
    (force : bool) (st : State) (page : response) (w1 w2 : World)
    (decoded : text) (rows : ndarray) :
  let target := path_join output_dir (last_component url) in
  is_file (world st) target = false \/ force = true ->
  requests_get (world st) url = (Ok page, w1) ->
  status_code page = 200%Z ->
  decode (content page) = Ok decoded ->
  asarray_float32 (matched_groups SEARCH_PATTERN (splitlines decoded)) =
  Ok rows ->
  savetxt w1 target rows "%.6e" = Ok w2 ->
  export_airfoil_data url output_dir force st =
  (Ok tt,
   {| world := w2;
      stdout := stdout st ++ [("+ " ++ url ++ " -> " ++ target)%string] |}) /\
  length rows = length (kept_lines (splitlines decoded)) /\
  Forall (fun row => 0 <= nth 0 row 0) rows.
Proof.
  intros target Hrun Hget Hstatus Hdec Harr Hsave.
  pose proof (parse_rows_of_kept_lines _ _ (asarray_float32_inv _ _ Harr))
    as Hrows.
  split; [|split; [symmetry; exact (Forall2_length Hrows)
                  | exact (rows_first_coordinate _ _ Hrows)]].
  rewrite export_airfoil_data_run by exact Hrun. fold target.
  unfold bind, print, read_airfoil_data, bind, get_url_content, lift, modify.
  simpl. rewrite Hget, Hstatus. simpl. rewrite Hdec, Harr. simpl.
  rewrite Hsave. reflexivity.
Qed.

End SuccessFacts.


Lemma successful_download_is_saved_witness :
  let st := @Build_State sample_os [] [] in
  let rows := [[Q2R (1000000 # 1000000); Q2R (1260 # 1000000)];
               [Q2R (500000 # 1000000); Q2R (-52940 # 1000000)]] in
  @export_airfoil_data sample_os "http://host/coord/naca0012.dat" "db" false st =
  (Ok tt,
   @Build_State sample_os [("db/naca0012.dat", rows)]
     ["+ http://host/coord/naca0012.dat -> db/naca0012.dat"]).
Proof.
  intros st rows.
  destruct (@successful_download_is_saved sample_os
              "http://host/coord/naca0012.dat" "db" false st
              {| status_code := 200; content := sample_page |} []
              [("db/naca0012.dat", rows)] (str sample_page) rows
              (or_introl eq_refl) eq_refl eq_refl eq_refl eq_refl eq_refl)
    as [Hrun _].
  exact Hrun.
Defined.
